(** * OpenAugi transcript parser: a shallow embedding of [src/main.ts]

    The plugin reads a voice transcript, sends it to a chat-completion
    service, pulls a JSON payload out of the reply and writes a summary, a
    set of notes and a cumulative task list into the Obsidian vault.

    Layout of this development:
    - JavaScript strings, [String.prototype.trim], [Array.prototype.join];
    - Numbers: the double a token denotes and Number::toString;
    - the regular expression of line 134, with its backtracking;
    - JSON values, [JSON.stringify] and [JSON.parse];
    - the dynamic operations the code applies to parsed values;
    - the vault, notices, console and network as an explicit world;
    - the methods of [TranscriptParserPlugin];
    - the properties of the pipeline. *)

From Stdlib Require Import String Ascii NArith ZArith List Lia DecimalString.
From stdpp Require Import gmap list.

(** ** JavaScript strings

    A JavaScript string is a sequence of UTF-16 code units.  A code unit is
    a number below 65536; every function below is total on [list N] and
    never relies on the bound. *)

Abbreviation jstring := (list N).

(** [js] turns an ASCII literal of this file into a JavaScript string. *)
Definition js (s : string) : jstring :=
  map N_of_ascii (list_ascii_of_string s).

(** [dq] is [js] with every apostrophe replaced by a quotation mark, so
    that JSON texts can be written down as literals. *)
Definition dq (s : string) : jstring :=
  map (fun c => if (c =? 39)%N then 34%N else c) (js s).

Local Open Scope N_scope.

Definition LF : N := 10.
Definition QUOTE : N := 34.
Definition BACKSLASH : N := 92.
Definition BACKTICK : N := 96.

(** WhiteSpace and LineTerminator of ECMAScript: the characters matched by
    [\s] in a regular expression and stripped by [trim]. *)
Definition is_space (c : N) : bool :=
  (c =? 9) || (c =? 10) || (c =? 11) || (c =? 12) || (c =? 13) || (c =? 32)
  || (c =? 160) || (c =? 5760) || ((8192 <=? c) && (c <=? 8202))
  || (c =? 8232) || (c =? 8233) || (c =? 8239) || (c =? 8287)
  || (c =? 12288) || (c =? 65279).

Fixpoint trim_start (s : jstring) : jstring :=
  match s with
  | c :: r => if is_space c then trim_start r else s
  | [] => []
  end.

Definition trim_end (s : jstring) : jstring := rev (trim_start (rev s)).

(** [String.prototype.trim] *)
Definition trim (s : jstring) : jstring := trim_end (trim_start s).

(** [Array.prototype.join] on an array of strings. *)
Fixpoint join (sep : jstring) (parts : list jstring) : jstring :=
  match parts with
  | [] => []
  | [p] => p
  | p :: rest => p ++ sep ++ join sep rest
  end.

(** [strip_prefix p s] is the rest of [s] after its prefix [p], if [s]
    starts with [p] ([String.prototype.startsWith], and a literal in a
    regular expression). *)
Fixpoint strip_prefix (p s : jstring) : option jstring :=
  match p, s with
  | [], _ => Some s
  | a :: p', b :: s' => if a =? b then strip_prefix p' s' else None
  | _ :: _, [] => None
  end.

Definition startsWith (s p : jstring) : bool :=
  match strip_prefix p s with Some _ => true | None => false end.

(** [String.prototype.includes] *)
Fixpoint includes (s p : jstring) : bool :=
  startsWith s p ||
  match s with
  | [] => false
  | _ :: r => includes r p
  end.

(** Number::toString for a natural number. *)
Definition N_to_jstring (n : N) : jstring :=
  js (NilZero.string_of_uint (N.to_uint n)).

(** The decimal digits at the head of a text, and the rest. *)
Definition is_digit (c : N) : bool := (48 <=? c) && (c <=? 57).

Fixpoint span_digits (s : jstring) : jstring * jstring :=
  match s with
  | c :: r =>
      if is_digit c then let '(ds, rest) := span_digits r in (c :: ds, rest)
      else ([], s)
  | [] => ([], [])
  end.

(** ** Numbers

    A Number is an IEEE 754 double.  [Finite negative m e] is the double
    of magnitude [m * 2^e], with [m < 2^53] and [-1074 <= e <= 971]; a
    zero has [m = 0]. *)

Inductive number : Type :=
| Finite (negative : bool) (m : N) (e : Z)
| Infinite (negative : bool).

(** The value of a sequence of decimal digits. *)
Definition digits_value (ds : jstring) : N :=
  fold_left (fun acc d => 10 * acc + (d - 48)) ds 0.

(** The sign, the digits and the power of ten of a number token: the
    token denotes [(-1)^negative * digits * 10^exponent]. *)
Definition decimal_of_token (lexeme : jstring) : bool * N * Z :=
  let '(negative, r0) :=
    match lexeme with
    | c :: r => if c =? 45 then (true, r) else (false, lexeme)
    | [] => (false, lexeme)
    end in
  let '(int_digits, r1) := span_digits r0 in
  let '(frac_digits, r2) :=
    match r1 with
    | c :: r => if c =? 46 then span_digits r else ([], r1)
    | [] => ([], r1)
    end in
  let exponent : Z :=
    match r2 with
    | c :: r =>
        if (c =? 101) || (c =? 69) then
          match r with
          | d :: r' =>
              if d =? 45 then (- Z.of_N (digits_value (fst (span_digits r'))))%Z
              else if d =? 43 then Z.of_N (digits_value (fst (span_digits r')))
              else Z.of_N (digits_value (fst (span_digits r)))
          | [] => 0%Z
          end
        else 0%Z
    | [] => 0%Z
    end in
  (negative, digits_value (int_digits ++ frac_digits),
   (exponent - Z.of_nat (length frac_digits))%Z).

(** [a / b] rounded to the nearest integer, a tie going to the even one. *)
Definition round_half_even (a b : N) : N :=
  let q := a / b in
  let r := a mod b in
  match 2 * r ?= b with
  | Lt => q
  | Gt => q + 1
  | Eq => if N.even q then q else q + 1
  end.

(** The fraction [num * 2^(-k) * 10^(-p) / den] as a numerator and a
    denominator. *)
Definition scale (num den : N) (two ten : Z) : N * N :=
  (num * 2 ^ Z.to_N (- two) * 10 ^ Z.to_N (- ten),
   den * 2 ^ Z.to_N two * 10 ^ Z.to_N ten).

(** The integer part of the binary logarithm of [a / b], for [a] and [b]
    positive. *)
Definition log2_floor (a b : N) : Z :=
  let c := (Z.of_N (N.log2 a) - Z.of_N (N.log2 b))%Z in
  let '(x, y) := scale a b c 0 in
  if y <=? x then c else (c - 1)%Z.

(** The double nearest to [digits * 10^exponent], ties to even: what
    [JSON.parse] makes of a number token. *)
Definition round_to_double (negative : bool) (digits : N) (exponent : Z) : number :=
  if digits =? 0 then Finite negative 0 0
  else
    let '(num, den) := scale digits 1 0 (- exponent) in
    let e := Z.max (log2_floor num den - 52) (-1074) in
    let '(a, b) := scale num den e 0 in
    let m := round_half_even a b in
    let '(m, e) := if m =? 2 ^ 53 then (2 ^ 52, (e + 1)%Z) else (m, e) in
    if (971 <? e)%Z then Infinite negative else Finite negative m e.

Definition token_number (lexeme : jstring) : number :=
  let '(negative, digits, exponent) := decimal_of_token lexeme in
  round_to_double negative digits exponent.

(** *** Number::toString

    The digits are the shortest ones that denote a real which rounds to the
    double, and among those the ones closest to it.  With [u = 2^(e-2)]
    the double is [4m u] and the reals that round to it lie between
    [(4m - below) u] and [(4m + 2) u], the ends included when [m] is
    even. *)

(** The digits [s] at the decimal position [p], if a real [s * 10^p]
    rounds to the double. *)
Definition digits_at (m : N) (e : Z) (p : Z) : option N :=
  let below := if (m =? 2 ^ 52) && (-1074 <? e)%Z then 1 else 2 in
  let '(a, b) := scale 1 1 (2 - e) p in
  let low := (4 * m - below) * a in
  let high := (4 * m + 2) * a in
  let s_low := if N.even m then (low + b - 1) / b else low / b + 1 in
  let s_high := if N.even m then high / b else (high + b - 1) / b - 1 in
  let nearest := round_half_even (4 * m * a) b in
  if (s_low <=? s_high) && (1 <=? s_high) then
    Some (N.max s_low (N.min nearest s_high))
  else None.

(** The largest position at which there are digits, searched downwards
    from [p]. *)
Fixpoint shortest_digits (fuel : nat) (m : N) (e : Z) (p : Z) : N * Z :=
  match fuel with
  | O => (m, p)
  | S fuel =>
      match digits_at m e p with
      | Some s => (s, p)
      | None => shortest_digits fuel m e (p - 1)
      end
  end.

(** A position above the first digit of [m * 2^e]: the binary logarithm
    times [log 2 / log 10], with room to spare. *)
Definition start_position (m : N) (e : Z) : Z :=
  ((Z.of_N (N.log2 m) + e) * 30103 / 100000 + 3)%Z.

Definition zeros (n : Z) : jstring := repeat 48 (Z.to_nat n).

(** Number::toString(x, 10) *)
Definition number_to_string (x : number) : jstring :=
  match x with
  | Infinite negative => (if negative then js "-" else []) ++ js "Infinity"
  | Finite negative m e =>
      if m =? 0 then js "0"
      else
        let '(s, p) := shortest_digits 40 m e (start_position m e) in
        let digits := N_to_jstring s in
        let k := Z.of_nat (length digits) in
        let n := (p + k)%Z in
        (if negative then js "-" else []) ++
        (if (k <=? n)%Z && (n <=? 21)%Z then digits ++ zeros (n - k)
         else if (0 <? n)%Z && (n <=? 21)%Z then
           take (Z.to_nat n) digits ++ js "." ++ drop (Z.to_nat n) digits
         else if (-6 <? n)%Z && (n <=? 0)%Z then
           js "0." ++ zeros (- n) ++ digits
         else
           take 1 digits
           ++ (if (k =? 1)%Z then [] else js "." ++ drop 1 digits)
           ++ js "e" ++ (if (0 <=? n - 1)%Z then js "+" else js "-")
           ++ N_to_jstring (Z.abs_N (n - 1)))
  end.

Definition is_zero (x : number) : bool :=
  match x with
  | Finite _ m _ => m =? 0
  | Infinite _ => false
  end.

(** ** The regular expression of line 134

    [/```(?:json)?\s*([\s\S]*?)```/] is run by [String.prototype.match]
    without the global flag: the leftmost start position at which the
    pattern matches wins, and at that position a backtracking matcher
    tries the alternatives of each quantifier in priority order.  Each
    piece of the pattern is a function taking its continuation; the
    result is the text of capture group 1. *)

Definition FENCE : jstring := [BACKTICK; BACKTICK; BACKTICK].

(** [([\s\S]*?)```]: the lazy star tries the empty capture first and
    grows it one code unit at a time. *)
Fixpoint lazy_capture_then_fence (s : jstring) : option jstring :=
  match strip_prefix FENCE s with
  | Some _ => Some []
  | None =>
      match s with
      | [] => None
      | c :: r => option_map (cons c) (lazy_capture_then_fence r)
      end
  end.

(** [\s*]: the greedy star takes one more space first and falls back to
    stopping here when the rest of the pattern fails. *)
Fixpoint spaces_then (k : jstring -> option jstring) (s : jstring)
  : option jstring :=
  match s with
  | c :: r =>
      if is_space c then
        match spaces_then k r with
        | Some g => Some g
        | None => k s
        end
      else k s
  | [] => k []
  end.

(** [(?:json)?]: the greedy option takes the tag first and falls back to
    skipping it. *)
Definition optional_json_then (k : jstring -> option jstring) (s : jstring)
  : option jstring :=
  match strip_prefix (js "json") s with
  | Some r =>
      match k r with
      | Some g => Some g
      | None => k s
      end
  | None => k s
  end.

(** The whole pattern, anchored at the start of [s]. *)
Definition match_here (s : jstring) : option jstring :=
  match strip_prefix FENCE s with
  | Some r => optional_json_then (spaces_then lazy_capture_then_fence) r
  | None => None
  end.

(** [messageContent.match(/.../)]: [Some g] when the pattern matches
    somewhere, [g] being [codeBlockMatch[1]]; [None] for [null]. *)
Fixpoint codeBlockMatch (s : jstring) : option jstring :=
  match match_here s with
  | Some g => Some g
  | None =>
      match s with
      | [] => None
      | _ :: r => codeBlockMatch r
      end
  end.

(** Lines 131-137: the candidate payload handed to [JSON.parse]. *)
Definition cleanedContent (messageContent : jstring) : jstring :=
  match codeBlockMatch messageContent with
  | Some g => trim g
  | None => messageContent
  end.

(** ** JSON values *)

#[local] Unset Elimination Schemes.

Inductive json : Type :=
| JNull
| JBool (b : bool)
| JNum (lexeme : jstring)
| JStr (s : jstring)
| JArr (items : list json)
| JObj (members : list (jstring * json)).

#[local] Set Elimination Schemes.

(** A number is kept as the token [JSON.parse] read; the Number it
    denotes is [token_number] of it, and every operation on the value goes
    through this Number. *)

(** *** JSON.stringify *)

Definition hex_digit (d : N) : N := if d <? 10 then 48 + d else 87 + d.

(** [\uXXXX] with lower-case digits. *)
Definition u_escape (c : N) : jstring :=
  [BACKSLASH; 117;
   hex_digit (c / 4096 mod 16); hex_digit (c / 256 mod 16);
   hex_digit (c / 16 mod 16); hex_digit (c mod 16)].

Definition is_high_surrogate (c : N) : bool := (55296 <=? c) && (c <=? 56319).
Definition is_low_surrogate (c : N) : bool := (56320 <=? c) && (c <=? 57343).

(** QuoteJSONString on one code unit that is not a surrogate. *)
Definition escape_unit (c : N) : jstring :=
  if c =? 8 then [BACKSLASH; 98]
  else if c =? 9 then [BACKSLASH; 116]
  else if c =? 10 then [BACKSLASH; 110]
  else if c =? 12 then [BACKSLASH; 102]
  else if c =? 13 then [BACKSLASH; 114]
  else if c =? QUOTE then [BACKSLASH; QUOTE]
  else if c =? BACKSLASH then [BACKSLASH; BACKSLASH]
  else if c <? 32 then u_escape c
  else [c].

(** The inside of a quoted string: a surrogate pair is copied, a lone
    surrogate is escaped. *)
Fixpoint quote_body (s : jstring) : jstring :=
  match s with
  | [] => []
  | c :: r =>
      if is_high_surrogate c then
        match r with
        | d :: r' =>
            if is_low_surrogate d then c :: d :: quote_body r'
            else u_escape c ++ quote_body r
        | [] => u_escape c
        end
      else if is_low_surrogate c then u_escape c ++ quote_body r
      else escape_unit c ++ quote_body r
  end.

Definition quote (s : jstring) : jstring := QUOTE :: quote_body s ++ [QUOTE].

(** [JSON.stringify] without indentation: no white space is emitted. *)
Fixpoint JSON_stringify (v : json) : jstring :=
  match v with
  | JNull => js "null"
  | JBool true => js "true"
  | JBool false => js "false"
  | JNum lexeme =>
      match token_number lexeme with
      | Finite _ _ _ as x => number_to_string x
      | Infinite _ => js "null"
      end
  | JStr s => quote s
  | JArr items => js "[" ++ join (js ",") (map JSON_stringify items) ++ js "]"
  | JObj members =>
      js "{" ++
      join (js ",")
        (map (fun kv => quote (fst kv) ++ js ":" ++ JSON_stringify (snd kv))
             members)
      ++ js "}"
  end.

(** *** JSON.parse

    The grammar of ECMA-404, as a recursive-descent parser.  Every parser
    returns the value it read and the text that follows it. *)

Definition is_json_ws (c : N) : bool :=
  (c =? 32) || (c =? 9) || (c =? 10) || (c =? 13).

Fixpoint skip_ws (s : jstring) : jstring :=
  match s with
  | c :: r => if is_json_ws c then skip_ws r else s
  | [] => []
  end.

Definition hex_value (c : N) : option N :=
  if (48 <=? c) && (c <=? 57) then Some (c - 48)
  else if (97 <=? c) && (c <=? 102) then Some (c - 87)
  else if (65 <=? c) && (c <=? 70) then Some (c - 55)
  else None.

(** The code unit denoted by the character after a backslash. *)
Definition unescape (e : N) : option N :=
  if e =? QUOTE then Some QUOTE
  else if e =? BACKSLASH then Some BACKSLASH
  else if e =? 47 then Some 47
  else if e =? 98 then Some 8
  else if e =? 102 then Some 12
  else if e =? 110 then Some 10
  else if e =? 114 then Some 13
  else if e =? 116 then Some 9
  else None.

(** A string, after its opening quotation mark. *)
Fixpoint parse_string_body (s : jstring) : option (jstring * jstring) :=
  match s with
  | [] => None
  | c :: r =>
      if c =? QUOTE then Some ([], r)
      else if c =? BACKSLASH then
        match r with
        | [] => None
        | e :: r1 =>
            if e =? 117 then
              match r1 with
              | h1 :: h2 :: h3 :: h4 :: r2 =>
                  a ← hex_value h1; b ← hex_value h2;
                  c ← hex_value h3; d ← hex_value h4;
                  '(t, rest) ← parse_string_body r2;
                  Some ((((a * 16 + b) * 16 + c) * 16 + d) :: t, rest)
              | _ => None
              end
            else
              u ← unescape e;
              '(t, rest) ← parse_string_body r1;
              Some (u :: t, rest)
        end
      else if c <? 32 then None
      else '(t, rest) ← parse_string_body r; Some (c :: t, rest)
  end.

(** [0 | [1-9][0-9]*] *)
Definition parse_int (s : jstring) : option (jstring * jstring) :=
  match s with
  | c :: r =>
      if c =? 48 then Some ([c], r)
      else if is_digit c then
        let '(ds, rest) := span_digits r in Some (c :: ds, rest)
      else None
  | [] => None
  end.

(** [(\.[0-9]+)?] *)
Definition parse_frac (s : jstring) : option (jstring * jstring) :=
  match s with
  | c :: r =>
      if c =? 46 then
        match span_digits r with
        | ([], _) => None
        | (ds, rest) => Some (c :: ds, rest)
        end
      else Some ([], s)
  | [] => Some ([], [])
  end.

(** [([eE][+-]?[0-9]+)?] *)
Definition parse_exp (s : jstring) : option (jstring * jstring) :=
  match s with
  | c :: r =>
      if (c =? 101) || (c =? 69) then
        let '(sign, r1) :=
          match r with
          | d :: r' => if (d =? 43) || (d =? 45) then ([d], r') else ([], r)
          | [] => ([], r)
          end in
        match span_digits r1 with
        | ([], _) => None
        | (ds, rest) => Some (c :: sign ++ ds, rest)
        end
      else Some ([], s)
  | [] => Some ([], [])
  end.

Definition parse_number (s : jstring) : option (jstring * jstring) :=
  let '(sign, r0) :=
    match s with
    | c :: r => if c =? 45 then ([c], r) else ([], s)
    | [] => ([], s)
    end in
  '(i, r1) ← parse_int r0;
  '(f, r2) ← parse_frac r1;
  '(e, r3) ← parse_exp r2;
  Some (sign ++ i ++ f ++ e, r3).

(** Values, the elements of an array after its opening bracket and the
    members of an object after its opening brace.  The recursion is on a
    fuel; [JSON_parse] supplies more than any text can use
    ([parse_value_fuel_enough]). *)
Fixpoint parse_value (fuel : nat) (s : jstring) : option (json * jstring) :=
  match fuel with
  | O => None
  | S fuel =>
      match skip_ws s with
      | [] => None
      | c :: r =>
          if c =? 123 then
            match skip_ws r with
            | c' :: r' =>
                if c' =? 125 then Some (JObj [], r')
                else '(ms, rest) ← parse_members fuel r; Some (JObj ms, rest)
            | [] => None
            end
          else if c =? 91 then
            match skip_ws r with
            | c' :: r' =>
                if c' =? 93 then Some (JArr [], r')
                else '(vs, rest) ← parse_elements fuel r; Some (JArr vs, rest)
            | [] => None
            end
          else if c =? QUOTE then
            '(t, rest) ← parse_string_body r; Some (JStr t, rest)
          else if c =? 116 then
            rest ← strip_prefix (js "true") (c :: r); Some (JBool true, rest)
          else if c =? 102 then
            rest ← strip_prefix (js "false") (c :: r); Some (JBool false, rest)
          else if c =? 110 then
            rest ← strip_prefix (js "null") (c :: r); Some (JNull, rest)
          else
            '(lexeme, rest) ← parse_number (c :: r); Some (JNum lexeme, rest)
      end
  end
with parse_elements (fuel : nat) (s : jstring)
  : option (list json * jstring) :=
  match fuel with
  | O => None
  | S fuel =>
      '(v, r) ← parse_value fuel s;
      match skip_ws r with
      | c :: r' =>
          if c =? 44 then
            '(vs, rest) ← parse_elements fuel r'; Some (v :: vs, rest)
          else if c =? 93 then Some ([v], r')
          else None
      | [] => None
      end
  end
with parse_members (fuel : nat) (s : jstring)
  : option (list (jstring * json) * jstring) :=
  match fuel with
  | O => None
  | S fuel =>
      match skip_ws s with
      | c :: r =>
          if c =? QUOTE then
            '(k, r1) ← parse_string_body r;
            match skip_ws r1 with
            | c1 :: r2 =>
                if c1 =? 58 then
                  '(v, r3) ← parse_value fuel r2;
                  match skip_ws r3 with
                  | c2 :: r4 =>
                      if c2 =? 44 then
                        '(ms, rest) ← parse_members fuel r4;
                        Some ((k, v) :: ms, rest)
                      else if c2 =? 125 then Some ([(k, v)], r4)
                      else None
                  | [] => None
                  end
                else None
            | [] => None
            end
          else None
      | [] => None
      end
  end.

Definition parse_fuel (s : jstring) : nat := (2 * length s + 1)%nat.

(** [JSON.parse text]: [None] stands for the SyntaxError it throws. *)
Definition JSON_parse (text : jstring) : option json :=
  '(v, r) ← parse_value (parse_fuel text) text;
  match skip_ws r with
  | [] => Some v
  | _ :: _ => None
  end.

(** ** Dynamic operations on values

    What the code does to a value that came out of [JSON.parse], whose
    static type is [any].  [None] stands for [undefined]. *)

Definition value : Type := option json.
Definition undefined : value := None.

Inductive js_error : Type :=
| Error (message : jstring)        (* [new Error(message)], thrown by the plugin *)
| TypeError                        (* thrown by the engine on a misuse of a value *)
| SyntaxError (message : jstring)  (* thrown by [JSON.parse] and [response.json()] *)
| HostError (message : jstring).   (* a rejection by the vault or by [fetch] *)

Inductive result (A : Type) : Type :=
| Ok (a : A)
| Throw (e : js_error).

Arguments Ok {A} a.
Arguments Throw {A} e.

(** The own property [k] of an object built by [JSON.parse]: of two
    members with the same key the later one wins. *)
Fixpoint own_property (k : jstring) (members : list (jstring * json)) : value :=
  match members with
  | [] => undefined
  | (k', v) :: rest =>
      match own_property k rest with
      | Some v' => Some v'
      | None => if decide (k' = k) then Some v else undefined
      end
  end.

(** [o.k] for the property names the code reads ([summary], [notes],
    [tasks], [title], [content], [choices], [message], [error]): none of
    them is defined on a built-in prototype, so a primitive, an array or an
    object without the member gives [undefined]. *)
Definition get_prop (o : value) (k : jstring) : result value :=
  match o with
  | None | Some JNull => Throw TypeError
  | Some (JObj members) => Ok (own_property k members)
  | Some _ => Ok undefined
  end.

(** [o?.k] *)
Definition get_prop_optional (o : value) (k : jstring) : result value :=
  match o with
  | None | Some JNull => Ok undefined
  | _ => get_prop o k
  end.

(** [o[0]] *)
Definition get_index0 (o : value) : result value :=
  match o with
  | None | Some JNull => Throw TypeError
  | Some (JArr items) => Ok (head items)
  | Some (JStr s) => Ok (option_map (fun c => JStr [c]) (head s))
  | Some (JObj members) => Ok (own_property (js "0") members)
  | Some _ => Ok undefined
  end.

(** ToBoolean *)
Definition truthy (v : value) : bool :=
  match v with
  | None | Some JNull => false
  | Some (JBool b) => b
  | Some (JNum lexeme) => negb (is_zero (token_number lexeme))
  | Some (JStr s) => match s with [] => false | _ :: _ => true end
  | Some (JArr _) | Some (JObj _) => true
  end.

(** [a || b] *)
Definition or_else (a b : value) : value := if truthy a then a else b.

Definition result_map {A B} (f : A -> B) (r : result A) : result B :=
  match r with
  | Ok a => Ok (f a)
  | Throw e => Throw e
  end.

(** [f] on the elements from left to right, up to the first one on which
    it throws. *)
Definition map_result {A B} (f : A -> result B) : list A -> result (list B) :=
  fix go (xs : list A) : result (list B) :=
    match xs with
    | [] => Ok []
    | x :: rest =>
        match f x with
        | Ok y => result_map (cons y) (go rest)
        | Throw e => Throw e
        end
    end.

(** ToString, as a template literal applies it.  An array is joined as
    [Array.prototype.join] does, [null] giving the empty string.  An
    object goes through OrdinaryToPrimitive: a parsed object with an own
    member [toString], which is never callable, has no primitive value,
    since the inherited [valueOf] returns the object itself; without such
    a member [Object.prototype.toString] answers. *)
Fixpoint json_to_string (v : json) : result jstring :=
  match v with
  | JNull => Ok (js "null")
  | JBool true => Ok (js "true")
  | JBool false => Ok (js "false")
  | JNum lexeme => Ok (number_to_string (token_number lexeme))
  | JStr s => Ok s
  | JArr items =>
      result_map (join (js ","))
        (map_result
           (fun x => match x with JNull => Ok [] | _ => json_to_string x end)
           items)
  | JObj members =>
      match own_property (js "toString") members with
      | Some _ => Throw TypeError
      | None => Ok (js "[object Object]")
      end
  end.

Definition to_string (v : value) : result jstring :=
  match v with
  | None => Ok (js "undefined")
  | Some x => json_to_string x
  end.

(** The string iterator yields code points: a surrogate pair is one
    element. *)
Fixpoint code_points (s : jstring) : list jstring :=
  match s with
  | [] => []
  | c :: r =>
      match r with
      | d :: r' =>
          if is_high_surrogate c && is_low_surrogate d
          then [c; d] :: code_points r'
          else [c] :: code_points r
      | [] => [[c]]
      end
  end.

(** The elements [for (const x of v)] runs through. *)
Definition iterate (v : value) : result (list json) :=
  match v with
  | Some (JArr items) => Ok items
  | Some (JStr s) => Ok (map JStr (code_points s))
  | _ => Throw TypeError
  end.

(** [v.map(f)], [f] returning a string or throwing: only an array has a
    [map] method (a member called [map] of a parsed object is not a
    function). *)
Definition array_map (f : value -> result jstring) (v : value)
  : result (list jstring) :=
  match v with
  | Some (JArr items) => map_result (fun x => f (Some x)) items
  | _ => Throw TypeError
  end.

(** ** The world of the plugin: vault, notices, console, network

    The vault is the document store of Obsidian.  Paths are opaque keys:
    the folder hierarchy is not modelled. *)

Inductive node : Type :=
| File (data : jstring)
| Folder.

Inductive log_arg : Type :=
| LogText (s : jstring)
| LogError (e : js_error).

Record http_request : Type := HttpRequest {
  url : jstring;
  method : jstring;
  headers : list (jstring * jstring);
  body : jstring
}.

Record http_response : Type := HttpResponse {
  status : N;
  statusText : jstring;
  payload : jstring
}.

Inductive fetch_outcome : Type :=
| Rejects (e : js_error)
| Responds (r : http_response).

Record world : Type := World {
  vault : gmap jstring node;
  notices : list jstring;              (* [new Notice(...)], oldest first *)
  console : list (list log_arg);       (* [console.error(...)], oldest first *)
  network : list http_request          (* requests sent by [fetch], oldest first *)
}.

(** What surrounds the plugin and is not its code: the remote completion
    service and the message the engine puts into the SyntaxError of
    [JSON.parse] for a given text. *)
Record environment : Type := Environment {
  service : http_request -> fetch_outcome;
  syntax_error_message : jstring -> jstring
}.

(** An [async] computation: it runs on a world, changes it, and either
    returns or throws.  What was done before a throw stays done. *)
Definition M (A : Type) : Type := world -> result A * world.

Definition ret {A} (a : A) : M A := fun w => (Ok a, w).
Definition throw {A} (e : js_error) : M A := fun w => (Throw e, w).

Definition bind {A B} (m : M A) (k : A -> M B) : M B :=
  fun w =>
    match m w with
    | (Ok a, w') => k a w'
    | (Throw e, w') => (Throw e, w')
    end.

Definition try_catch {A} (m : M A) (handler : js_error -> M A) : M A :=
  fun w =>
    match m w with
    | (Ok a, w') => (Ok a, w')
    | (Throw e, w') => handler e w'
    end.

(** A pure operation that may throw. *)
Definition lift {A} (r : result A) : M A := fun w => (r, w).

Notation "x <~ m ;; k" := (bind m (fun x => k))
  (at level 100, m at next level, right associativity).
Notation "m ;;; k" := (bind m (fun _ => k))
  (at level 100, right associativity).

Fixpoint for_each {A} (xs : list A) (loop_body : A -> M unit) : M unit :=
  match xs with
  | [] => ret tt
  | x :: rest => loop_body x ;;; for_each rest loop_body
  end.

Definition set_vault (v : gmap jstring node) (w : world) : world :=
  World v (notices w) (console w) (network w).

(** [new Notice(text)] *)
Definition Notice (text : jstring) : M unit :=
  fun w => (Ok tt, World (vault w) (notices w ++ [text]) (console w) (network w)).

(** [console.error(...args)] *)
Definition console_error (args : list log_arg) : M unit :=
  fun w => (Ok tt, World (vault w) (notices w) (console w ++ [args]) (network w)).

(** [vault.adapter.exists(path)] *)
Definition adapter_exists (path : jstring) : M bool :=
  fun w => (Ok (bool_decide (is_Some (vault w !! path))), w).

(** [vault.createFolder(path)] rejects when the path is taken. *)
Definition createFolder (path : jstring) : M unit :=
  fun w =>
    match vault w !! path with
    | Some _ => (Throw (HostError (js "Folder already exists.")), w)
    | None => (Ok tt, set_vault (<[path := Folder]> (vault w)) w)
    end.

(** [vault.create(path, data)] rejects when the path is taken.  The host
    declares [data] a string; a value of another type, which the plugin can
    pass because the parsed payload is untyped, is rejected as the file
    system layer under the vault does. *)
Definition vault_create (path : jstring) (data : value) : M unit :=
  fun w =>
    match vault w !! path with
    | Some _ => (Throw (HostError (js "File already exists.")), w)
    | None =>
        match data with
        | Some (JStr text) => (Ok tt, set_vault (<[path := File text]> (vault w)) w)
        | _ => (Throw (HostError (js "The data argument must be a string.")), w)
        end
    end.

(** [vault.getAbstractFileByPath(path)]: the file or folder, or [null]. *)
Definition getAbstractFileByPath (path : jstring) : M (option node) :=
  fun w => (Ok (vault w !! path), w).

(** [vault.read(file)], the file being named by its path. *)
Definition vault_read (path : jstring) : M jstring :=
  fun w =>
    match vault w !! path with
    | Some (File text) => (Ok text, w)
    | _ => (Throw (HostError (js "File not found.")), w)
    end.

(** [vault.modify(file, data)] overwrites the content of the file. *)
Definition vault_modify (path : jstring) (data : jstring) : M unit :=
  fun w =>
    match vault w !! path with
    | Some (File _) => (Ok tt, set_vault (<[path := File data]> (vault w)) w)
    | _ => (Throw (HostError (js "File not found.")), w)
    end.

(** [response.ok] *)
Definition ok (r : http_response) : bool := (200 <=? status r) && (status r <=? 299).

Record TFile : Type := MkTFile {
  path : jstring;
  basename : jstring;
  extension : jstring
}.

(** ** The plugin: [TranscriptParserPlugin] *)

Record TranscriptParserSettings : Type := MkSettings {
  apiKey : jstring
}.

Definition DEFAULT_SETTINGS : TranscriptParserSettings :=
  {| apiKey := [] |}.

(** What [loadData] resolves to: the saved object, whose field may be
    missing, or [null]. *)
Record saved_data : Type := MkSaved {
  saved_apiKey : option jstring
}.

Record plugin : Type := MkPlugin {
  settings : TranscriptParserSettings
}.

(** [loadSettings]: [Object.assign({}, DEFAULT_SETTINGS, data)]. *)
Definition loadSettings (data : option saved_data) : plugin :=
  {| settings :=
       {| apiKey :=
            match data with
            | Some d => default (apiKey DEFAULT_SETTINGS) (saved_apiKey d)
            | None => apiKey DEFAULT_SETTINGS
            end |} |}.

Definition SUMMARIES_DIR : jstring := js "Parsed_Notes/summaries".
Definition NOTES_DIR : jstring := js "Parsed_Notes/notes".
Definition TASKS_PATH : jstring := js "Parsed_Notes/tasks.md".
Definition ENDPOINT : jstring := js "https://api.openai.com/v1/chat/completions".

(** The template literal of lines 88-102. *)
Definition ARROW : N := 8594.

Definition prompt_of (content : jstring) : jstring :=
  join [LF]
    [ dq "You will receive a raw transcript from voice notes. Identify all commands that start with the special token 'AUGI' and parse them clearly.";
      [];
      js "Example commands:";
      dq "- 'AUGI create note titled XYZ' " ++ [ARROW] ++ js " Create a new note with title XYZ.";
      dq "- 'AUGI summarize this' " ++ [ARROW] ++ js " Summarize preceding context.";
      dq "- 'AUGI add task ABC' " ++ [ARROW] ++ js " Create a new task item.";
      [];
      js "Return strictly JSON:";
      js "{";
      dq "  'summary': 'Short summary (ignoring commands)',";
      dq "  'notes': [{'title': 'Note Title', 'content': 'Content'}],";
      dq "  'tasks': ['task 1', 'task 2']";
      js "}";
      [];
      js "Transcript:";
      content ].

(** The argument of [fetch], lines 105-116. *)
Definition completion_request (key prompt : jstring) : http_request :=
  {| url := ENDPOINT;
     method := js "POST";
     headers := [ (js "Content-Type", js "application/json");
                  (js "Authorization", js "Bearer " ++ key) ];
     body :=
       JSON_stringify
         (JObj [ (js "model", JStr (js "gpt-4-turbo"));
                 (js "messages",
                  JArr [ JObj [ (js "role", JStr (js "user"));
                                (js "content", JStr prompt) ] ]);
                 (js "temperature", JNum (js "0.7")) ]) |}.

(** The line of the task list for one task, line 160. *)
Definition checkbox (task : jstring) : jstring := js "- [ ] " ++ task.

Section Plugin.

Variable E : environment.

(** [fetch(url, init)]: one request goes out, the service answers. *)
Definition fetch (request : http_request) : M http_response :=
  fun w =>
    let w' := World (vault w) (notices w) (console w) (network w ++ [request]) in
    match service E request with
    | Rejects e => (Throw e, w')
    | Responds r => (Ok r, w')
    end.

(** [response.json()] *)
Definition response_json (r : http_response) : M json :=
  match JSON_parse (payload r) with
  | Some v => ret v
  | None => throw (SyntaxError (syntax_error_message E (payload r)))
  end.

(** Lines 55-68. *)
Definition ensureDirectoriesExist : M unit :=
  let dirs := [ js "Parsed_Notes"; SUMMARIES_DIR; NOTES_DIR ] in
  for_each dirs (fun dir =>
    exists_ <~ adapter_exists dir ;;
    if negb exists_ then createFolder dir else ret tt).

(** Lines 105-128: the call of the completion service.  It returns
    [messageContent]. *)
Definition requestCompletion (this : plugin) (prompt : jstring) : M value :=
  response <~ fetch (completion_request (apiKey (settings this)) prompt) ;;
  (if negb (ok response) then
     errorData <~ response_json response ;;
     error <~ lift (get_prop (Some errorData) (js "error")) ;;
     message <~ lift (get_prop_optional error (js "message")) ;;
     text <~ lift (to_string (or_else message (Some (JStr (statusText response))))) ;;
     throw (Error (js "OpenAI API error: " ++ N_to_jstring (status response)
                   ++ js " " ++ text))
   else ret tt) ;;;
  responseData <~ response_json response ;;
  choices <~ lift (get_prop (Some responseData) (js "choices")) ;;
  choice <~ lift (get_index0 choices) ;;
  message <~ lift (get_prop choice (js "message")) ;;
  messageContent <~ lift (get_prop message (js "content")) ;;
  if negb (truthy messageContent) then
    throw (Error (js "No response content received from OpenAI"))
  else ret messageContent.

(** Lines 130-146: from the reply to the parsed payload.  Only a string
    has a [match] method. *)
Definition extractPayload (messageContent : value) : M json :=
  match messageContent with
  | Some (JStr text) =>
      let cleaned := cleanedContent text in
      match JSON_parse cleaned with
      | Some structuredData => ret structuredData
      | None =>
          console_error [LogText (js "Failed to parse JSON response:");
                         LogText cleaned] ;;;
          throw (Error (js "Failed to parse JSON response: "
                        ++ syntax_error_message E cleaned))
      end
  | _ => throw TypeError
  end.

(** Line 149. *)
Definition writeSummary (filename : jstring) (structuredData : json) : M unit :=
  summary <~ lift (get_prop (Some structuredData) (js "summary")) ;;
  vault_create (SUMMARIES_DIR ++ js "/" ++ filename ++ js "_summary.md") summary.

(** Lines 152-154. *)
Definition writeNotes (structuredData : json) : M unit :=
  notes <~ lift (get_prop (Some structuredData) (js "notes")) ;;
  items <~ lift (iterate notes) ;;
  for_each items (fun note =>
    title <~ lift (get_prop (Some note) (js "title")) ;;
    name <~ lift (to_string title) ;;
    content <~ lift (get_prop (Some note) (js "content")) ;;
    vault_create (NOTES_DIR ++ js "/" ++ name ++ js ".md") content).

(** [structuredData.tasks.map((task) => `- [ ] ${task}`).join('\n')] *)
Definition taskLines (structuredData : json) : M jstring :=
  tasks <~ lift (get_prop (Some structuredData) (js "tasks")) ;;
  lines <~ lift (array_map (fun task => result_map checkbox (to_string task)) tasks) ;;
  ret (join [LF] lines).

(** Lines 157-164. *)
Definition appendTasks (structuredData : json) : M unit :=
  tasksFile <~ getAbstractFileByPath TASKS_PATH ;;
  match tasksFile with
  | Some (File _) =>
      existingTasks <~ vault_read TASKS_PATH ;;
      lines <~ taskLines structuredData ;;
      vault_modify TASKS_PATH (existingTasks ++ [LF] ++ lines)
  | _ =>
      lines <~ taskLines structuredData ;;
      vault_create TASKS_PATH (Some (JStr lines))
  end.

(** Lines 148-164. *)
Definition writeArtifacts (filename : jstring) (structuredData : json) : M unit :=
  writeSummary filename structuredData ;;;
  writeNotes structuredData ;;;
  appendTasks structuredData.

(** Lines 79-169. *)
Definition parseAndOutput (this : plugin) (filename content : jstring) : M unit :=
  ensureDirectoriesExist ;;;
  (match apiKey (settings this) with
   | [] =>
       Notice (js "Please set your OpenAI API key in the plugin settings") ;;;
       throw (Error (js "OpenAI API key not set"))
   | _ :: _ => ret tt
   end) ;;;
  let prompt := prompt_of content in
  try_catch
    (messageContent <~ requestCompletion this prompt ;;
     structuredData <~ extractPayload messageContent ;;
     writeArtifacts filename structuredData)
    (fun error =>
       console_error [LogText (js "Error calling OpenAI API:"); LogError error] ;;;
       throw error).

(** The callback of the command [Parse Transcript], lines 26-40. *)
Definition parseTranscriptCommand (this : plugin) (activeFile : option TFile) : M unit :=
  match activeFile with
  | Some file =>
      if decide (extension file = js "md") then
        try_catch
          (content <~ vault_read (path file) ;;
           parseAndOutput this (basename file) content ;;;
           Notice (js "Successfully parsed transcript: " ++ basename file))
          (fun error =>
             console_error [LogText (js "Failed to parse transcript:"); LogError error] ;;;
             Notice (js "Failed to parse transcript. Check console for details."))
      else Notice (js "Please open a markdown transcript file first")
  | None => Notice (js "Please open a markdown transcript file first")
  end.

(** Lines 70-77: the listener that [watchFolder(folderPath)] registers for
    the vault event [create], run on the created [file]. *)
Definition watchFolder (this : plugin) (folderPath : jstring) (file : TFile) : M unit :=
  if startsWith (path file) folderPath then
    content <~ vault_read (path file) ;;
    parseAndOutput this (basename file) content
  else ret tt.

End Plugin.

(** [onload] registers the listener with this folder, line 20. *)
Definition WATCHED_FOLDER : jstring := js "transcripts".


(** ** The data model of the specification *)

Record Note : Type := MkNote {
  title : jstring;
  content : jstring
}.

Record StructuredExtraction : Type := MkExtraction {
  summary : jstring;
  notes : list Note;
  tasks : list jstring
}.

(** The JavaScript object of a note and of an extraction. *)
Definition note_value (n : Note) : json :=
  JObj [ (js "title", JStr (title n)); (js "content", JStr (content n)) ].

Definition extraction_value (V : StructuredExtraction) : json :=
  JObj [ (js "summary", JStr (summary V));
         (js "notes", JArr (map note_value (notes V)));
         (js "tasks", JArr (map JStr (tasks V))) ].

(** A fenced code block around [text], with the tag [json] or without. *)
Definition fenced (tagged : bool) (text : jstring) : jstring :=
  FENCE ++ (if tagged then js "json" else []) ++ [LF] ++ text ++ [LF] ++ FENCE.




(** A value without number tokens. *)
Fixpoint number_free (v : json) : bool :=
  match v with
  | JNum _ => false
  | JArr items => forallb number_free items
  | JObj members => forallb (fun kv => number_free (snd kv)) members
  | _ => true
  end.

(** The fuel [parse_value] uses on the text of a value. *)
Fixpoint json_size (v : json) : nat :=
  match v with
  | JArr items => S (list_sum (map (fun x => S (json_size x)) items))
  | JObj members => S (list_sum (map (fun kv => S (json_size (snd kv))) members))
  | _ => 1
  end.

(** ** Notions used in the statements *)


(** The vault once the three output folders are there: what
    [ensureDirectoriesExist] makes of a vault. *)
Definition ensure_folder (dir : jstring) (v : gmap jstring node) : gmap jstring node :=
  match v !! dir with
  | Some _ => v
  | None => <[dir := Folder]> v
  end.

Definition with_output_folders (v : gmap jstring node) : gmap jstring node :=
  ensure_folder NOTES_DIR (ensure_folder SUMMARIES_DIR (ensure_folder (js "Parsed_Notes") v)).

(** The text behind the first triple backtick of [s], if there is one. *)
Fixpoint after_first_fence (s : jstring) : option jstring :=
  match strip_prefix FENCE s with
  | Some r => Some r
  | None =>
      match s with
      | [] => None
      | _ :: r => after_first_fence r
      end
  end.

(** A reply has a fenced block when a triple backtick is followed, further
    on, by another one that shares no character with it. *)
Definition has_fenced_block (text : jstring) : bool :=
  match after_first_fence text with
  | Some rest => includes rest FENCE
  | None => false
  end.

(** String(task) for each element of a tasks array, as the template
    literal of line 160 computes it. *)
Definition task_texts (items : list json) : result (list jstring) :=
  map_result (fun task => to_string (Some task)) items.

(** The checkbox lines of some task texts, joined by line feeds: every
    line behind a line feed, but for the first line feed. *)
Definition joined_checkbox_lines (texts : list jstring) : jstring :=
  drop 1 (concat (map (fun text => LF :: js "- [ ] " ++ text) texts)).

(** A computation that leaves every entry of the vault where it is and as
    it is, whether it returns or throws. *)
Definition keeps_entries {A} (m : M A) : Prop :=
  forall w p x, vault w !! p = Some x -> vault (snd (m w)) !! p = Some x.

(** A computation that leaves one component of the world as it found it,
    whether it returns or throws. *)
Definition preserves {A X} (component : world -> X) (m : M A) : Prop :=
  forall w, component (snd (m w)) = component w.

(** The first character of the text of a value without numbers. *)
Definition value_start (c : N) : bool :=
  (c =? 123) || (c =? 91) || (c =? QUOTE) || (c =? 116) || (c =? 102) || (c =? 110).

(** [JSON.parse] reads [v] back from its text, whatever follows the text. *)
Definition roundtrips (v : json) : Prop :=
  number_free v = true ->
  forall fuel rest, (json_size v <= fuel)%nat ->
  parse_value fuel (JSON_stringify v ++ rest) = Some (v, rest).

(** The API key that was saved, if any. *)
Definition stored_credential (data : option saved_data) : option jstring :=
  d ← data; saved_apiKey d.

(** The texts of lines 84, 144, 32 and 35. *)
Definition MISSING_KEY_NOTICE : jstring :=
  js "Please set your OpenAI API key in the plugin settings".

Definition PARSE_FAILURE_LABEL : jstring := js "Failed to parse JSON response:".

(** The error of line 145 for a candidate payload. *)
Definition malformed_payload (E : environment) (candidate : jstring) : js_error :=
  Error (js "Failed to parse JSON response: " ++ syntax_error_message E candidate).

(** The world after [console.error(...args)]. *)
Definition logged (args : list log_arg) (w : world) : world :=
  World (vault w) (notices w) (console w ++ [args]) (network w).

Definition SUCCESS_NOTICE (file : TFile) : jstring :=
  js "Successfully parsed transcript: " ++ basename file.

Definition FAILURE_NOTICE : jstring :=
  js "Failed to parse transcript. Check console for details.".

(** A computation that runs [m] and, if [m] returns, throws a TypeError. *)
Definition then_type_error (m : M unit) : M unit :=
  fun w =>
    match m w with
    | (Ok _, w') => (Throw TypeError, w')
    | (Throw e, w') => (Throw e, w')
    end.

(** ** Sample inputs *)

(** An engine whose message names the first character of the text and
    quotes the text, whole when it has less than 21 characters and its
    first ten otherwise, as V8 does for a text whose first character
    cannot start a JSON value. *)
Definition sample_engine_message (text : jstring) : jstring :=
  js "Unexpected token '" ++ take 1 text ++ js "', " ++ [QUOTE]
  ++ (if (length text <? 21)%nat then text ++ [QUOTE]
      else take 10 text ++ [QUOTE] ++ js "...")
  ++ js " is not valid JSON".

Definition REFUSAL : jstring := js "I cannot help with that.".

(** A successful answer of the completion service carrying [content]. *)
Definition chat_completion (content : jstring) : http_response :=
  {| status := 200;
     statusText := js "OK";
     payload :=
       JSON_stringify
         (JObj [ (js "choices",
                  JArr [ JObj [ (js "message",
                                 JObj [ (js "role", JStr (js "assistant"));
                                        (js "content", JStr content) ]) ] ]) ]) |}.

Definition replying (content : jstring) : environment :=
  {| service := fun _ => Responds (chat_completion content);
     syntax_error_message := sample_engine_message |}.

Definition offline : environment :=
  {| service := fun _ => Rejects (HostError (js "Failed to fetch"));
     syntax_error_message := sample_engine_message |}.

Definition sample_plugin : plugin := MkPlugin (MkSettings (js "sk-test")).

Definition empty_world : world := World ∅ [] [] [].

Definition world_with_tasks (old : jstring) : world :=
  World {[ TASKS_PATH := File old ]} [] [] [].

(** The end-to-end scenario of the specification. *)
Definition scenario : StructuredExtraction :=
  {| summary := js "Meeting notes here.";
     notes := [ MkNote (js "Groceries") (js "buy milk") ];
     tasks := [ js "call dentist" ] |}.

Definition scenario_transcript : jstring :=
  js "AUGI create note titled Groceries: buy milk. AUGI add task call dentist. Rest of meeting notes here.".

Definition scenario_reply : jstring :=
  dq "{'summary':'Meeting notes here.','notes':[{'title':'Groceries','content':'buy milk'}],'tasks':['call dentist']}".

Definition transcript_file : TFile :=
  MkTFile (js "transcripts/meeting.md") (js "meeting") (js "md").

Definition world_with_transcript : world :=
  World {[ path transcript_file := File scenario_transcript ]} [] [] [].


(** An extraction whose summary is a triple backtick. *)
Definition backtick_summary : StructuredExtraction :=
  {| summary := FENCE; notes := []; tasks := [] |}.

(** A reply that is a JSON text behind a form feed. *)
Definition form_feed_reply : jstring :=
  [12] ++ dq "{'summary':'s','notes':[],'tasks':[]}".

(** A payload without [tasks], and one without [notes]. *)
Definition reply_without_tasks : jstring :=
  dq "{'summary':'s','notes':[{'title':'t','content':'c'}]}".

Definition payload_without_notes : json :=
  JObj [ (js "summary", JStr (js "s")); (js "tasks", JArr [JStr (js "t")]) ].

(** ** The rest of the plugin *)

(** [saveSettings], lines 51-53: what [saveData] is given. *)
Definition saveSettings (this : plugin) : option saved_data :=
  Some {| saved_apiKey := Some (apiKey (settings this)) |}.

(** The [onChange] handler of the settings tab, lines 193-196: the new
    plugin state and the data saved. *)
Definition onApiKeyChange (this : plugin) (value : jstring)
  : plugin * option saved_data :=
  let this' := {| settings := {| apiKey := value |} |} in
  (this', saveSettings this').

(** [onload], lines 14-45, up to the registrations: the settings are
    loaded and the output folders are created. *)
Definition onload (data : option saved_data) : M plugin :=
  let this := loadSettings data in
  ensureDirectoriesExist ;;;
  ret this.

(** What [onload] registers: the listener of [create] with the watched
    folder (line 20) and the command (lines 23-41). *)
Inductive event : Type :=
| FileCreated (file : TFile)
| ParseTranscript (activeFile : option TFile).

Section Dispatch.

Variable E : environment.

Definition dispatch (this : plugin) (ev : event) : M unit :=
  match ev with
  | FileCreated file => watchFolder E this WATCHED_FOLDER file
  | ParseTranscript activeFile => parseTranscriptCommand E this activeFile
  end.

End Dispatch.

(** The paths of lines 149 and 153. *)
Definition summary_path (filename : jstring) : jstring :=
  SUMMARIES_DIR ++ js "/" ++ filename ++ js "_summary.md".



Definition OUTPUT_DIRS : list jstring := [ js "Parsed_Notes"; SUMMARIES_DIR; NOTES_DIR ].

Definition OPEN_FILE_NOTICE : jstring :=
  js "Please open a markdown transcript file first".

Definition API_ERROR_LABEL : jstring := js "Error calling OpenAI API:".

(** Between two states of the vault: every entry is still there,
    unchanged, except that the task list may have grown at its end. *)
Definition ledger_extends (v v' : gmap jstring node) : Prop :=
  (forall p x, p <> TASKS_PATH -> v !! p = Some x -> v' !! p = Some x)
  /\ (forall old, v !! TASKS_PATH = Some (File old) ->
        exists added, v' !! TASKS_PATH = Some (File (old ++ added)))
  /\ (v !! TASKS_PATH = Some Folder -> v' !! TASKS_PATH = Some Folder).

Definition extends_ledger {A} (m : M A) : Prop :=
  forall w, ledger_extends (vault w) (vault (snd (m w))).

(** A character with which no JSON text starts. *)
Definition starts_no_json (c : N) : bool :=
  negb (is_json_ws c || value_start c || is_digit c || (c =? 45)).

(** A computation that touches nothing but the vault. *)
Definition vault_only {A} (m : M A) : Prop :=
  forall w, exists v, snd (m w) = set_vault v w.

(** ** Further sample inputs *)



(** A file in a folder whose name starts like the one of the watched
    folder. *)
Definition sibling_file : TFile :=
  MkTFile (js "transcripts-old/a.md") (js "a") (js "md").

(** A reply cut short inside its fenced block, and a block with another
    tag. *)
Definition truncated_reply : jstring := FENCE ++ js "json" ++ [LF] ++ scenario_reply.



(** * Properties *)

(** ** The regular expression *)

Lemma strip_prefix_app (p r : jstring) : strip_prefix p (p ++ r) = Some r.
Proof. induction p as [|a p IH]; simpl; [done|]. by rewrite N.eqb_refl. Qed.

Lemma starts_fence_3 (a b c : N) (r : jstring) :
  startsWith (a :: b :: c :: r) FENCE = (a =? BACKTICK) && (b =? BACKTICK) && (c =? BACKTICK).
Proof.
  unfold startsWith, FENCE. cbn [strip_prefix].
  rewrite (N.eqb_sym BACKTICK a), (N.eqb_sym BACKTICK b), (N.eqb_sym BACKTICK c).
  destruct (a =? BACKTICK), (b =? BACKTICK), (c =? BACKTICK); reflexivity.
Qed.

(** A fence that starts inside [a] when [a] is followed by two backticks
    is a fence that starts inside [a] whatever follows the backticks. *)
Lemma starts_fence_extend (a rest : jstring) :
  a <> [] ->
  startsWith (a ++ [BACKTICK; BACKTICK]) FENCE = false ->
  startsWith (a ++ FENCE ++ rest) FENCE = false.
Proof.
  destruct a as [|x [|y [|z a]]]; intros Hne H; try done.
  all: change (FENCE ++ rest) with (BACKTICK :: BACKTICK :: BACKTICK :: rest);
    cbn [app] in *; rewrite starts_fence_3 in *; done.
Qed.

Lemma includes_cons (c : N) (s p : jstring) :
  includes (c :: s) p = startsWith (c :: s) p || includes s p.
Proof. reflexivity. Qed.

Lemma lazy_capture_fence (a rest : jstring) :
  includes (a ++ [BACKTICK; BACKTICK]) FENCE = false ->
  lazy_capture_then_fence (a ++ FENCE ++ rest) = Some a.
Proof.
  induction a as [|c a IH]; intros H.
  - simpl. reflexivity.
  - change ((c :: a) ++ [BACKTICK; BACKTICK]) with (c :: (a ++ [BACKTICK; BACKTICK])) in H.
    rewrite includes_cons in H. apply orb_false_iff in H as [H1 H2].
    pose proof (starts_fence_extend (c :: a) rest ltac:(done) H1) as H3.
    unfold startsWith in H3.
    change ((c :: a) ++ FENCE ++ rest) with (c :: (a ++ FENCE ++ rest)) in *.
    cbn [lazy_capture_then_fence].
    destruct (strip_prefix FENCE (c :: a ++ FENCE ++ rest)); [done|].
    rewrite IH by done. reflexivity.
Qed.

Lemma starts_false_match_here (s : jstring) :
  startsWith s FENCE = false -> match_here s = None.
Proof.
  unfold startsWith, match_here. by destruct (strip_prefix FENCE s).
Qed.

Lemma codeBlockMatch_none (s : jstring) :
  includes s FENCE = false -> codeBlockMatch s = None.
Proof.
  induction s as [|c s IH]; intros H.
  - reflexivity.
  - rewrite includes_cons in H. apply orb_false_iff in H as [H1 H2].
    cbn [codeBlockMatch]. rewrite (starts_false_match_here _ H1). auto.
Qed.

Lemma codeBlockMatch_skip (pre r : jstring) :
  includes (pre ++ [BACKTICK; BACKTICK]) FENCE = false ->
  codeBlockMatch (pre ++ FENCE ++ r) = codeBlockMatch (FENCE ++ r).
Proof.
  induction pre as [|c pre IH]; intros H; [done|].
  change ((c :: pre) ++ [BACKTICK; BACKTICK]) with (c :: (pre ++ [BACKTICK; BACKTICK])) in H.
  rewrite includes_cons in H. apply orb_false_iff in H as [H1 H2].
  pose proof (starts_fence_extend (c :: pre) r ltac:(done) H1) as H3.
  change ((c :: pre) ++ FENCE ++ r) with (c :: (pre ++ FENCE ++ r)) in *.
  cbn [codeBlockMatch]. rewrite (starts_false_match_here _ H3). auto.
Qed.

Lemma spaces_then_capture (inner post : jstring) :
  includes (inner ++ [BACKTICK; BACKTICK]) FENCE = false ->
  spaces_then lazy_capture_then_fence (inner ++ FENCE ++ post)
  = Some (trim_start inner).
Proof.
  induction inner as [|c inner IH]; intros H.
  - reflexivity.
  - pose proof (lazy_capture_fence (c :: inner) post H) as Hl.
    change ((c :: inner) ++ [BACKTICK; BACKTICK]) with (c :: (inner ++ [BACKTICK; BACKTICK])) in H.
    rewrite includes_cons in H. apply orb_false_iff in H as [H1 H2].
    change ((c :: inner) ++ FENCE ++ post) with (c :: (inner ++ FENCE ++ post)) in *.
    cbn [spaces_then trim_start].
    destruct (is_space c); [by rewrite IH | done].
Qed.

Lemma strip_json_untagged (inner rest : jstring) :
  startsWith inner (js "json") = false ->
  strip_prefix (js "json") (inner ++ FENCE ++ rest) = None.
Proof.
  unfold startsWith. change (js "json") with [106; 115; 111; 110].
  change (FENCE ++ rest) with (96 :: 96 :: 96 :: rest).
  destruct inner as [|a [|b [|c [|d inner]]]]; cbn [app strip_prefix]; intros H.
  1-4: repeat (match goal with |- context [?x =? ?y] => destruct (x =? y) eqn:?
               end; try done).
  repeat (match goal with H : context [?x =? ?y] |- _ => destruct (x =? y) eqn:?
          end; try done).
Qed.

Lemma codeBlockMatch_fenced (pre : jstring) (tagged : bool) (inner post : jstring) :
  includes (pre ++ [BACKTICK; BACKTICK]) FENCE = false ->
  includes (inner ++ [BACKTICK; BACKTICK]) FENCE = false ->
  (tagged = false -> startsWith inner (js "json") = false) ->
  codeBlockMatch
    (pre ++ FENCE ++ (if tagged then js "json" else []) ++ inner ++ FENCE ++ post)
  = Some (trim_start inner).
Proof.
  intros Hpre Hinner Htag.
  rewrite codeBlockMatch_skip by done.
  assert (match_here (FENCE ++ (if tagged then js "json" else []) ++ inner ++ FENCE ++ post)
          = Some (trim_start inner)) as Hm.
  { unfold match_here. rewrite strip_prefix_app. unfold optional_json_then.
    destruct tagged.
    - rewrite strip_prefix_app. by rewrite spaces_then_capture.
    - cbn [app]. rewrite strip_json_untagged by auto. by apply spaces_then_capture. }
  destruct (FENCE ++ (if tagged then js "json" else []) ++ inner ++ FENCE ++ post) eqn:Heq.
  - discriminate Heq.
  - cbn [codeBlockMatch]. by rewrite Hm.
Qed.

(** *** trim *)

Lemma trim_start_idem (s : jstring) : trim_start (trim_start s) = trim_start s.
Proof.
  induction s as [|c s IH]; [done|]. cbn [trim_start].
  destruct (is_space c) eqn:Hc; [done|]. cbn [trim_start]. by rewrite Hc.
Qed.

Lemma trim_trim_start (s : jstring) : trim (trim_start s) = trim s.
Proof. unfold trim. by rewrite trim_start_idem. Qed.

Lemma trim_end_spaces (s ws : jstring) :
  forallb is_space ws = true -> trim_end (s ++ ws) = trim_end s.
Proof.
  unfold trim_end. induction ws as [|c ws IH] using rev_ind; intros H.
  - by rewrite app_nil_r.
  - rewrite forallb_app in H. apply andb_true_iff in H as [H1 H2].
    cbn in H2. rewrite andb_true_r in H2.
    rewrite app_assoc, rev_unit. cbn [trim_start]. rewrite H2. auto.
Qed.

Lemma trim_end_nonspace (s : jstring) (c : N) :
  is_space c = false -> trim_end (s ++ [c]) = s ++ [c].
Proof.
  intros H. unfold trim_end. rewrite rev_unit. cbn [trim_start]. rewrite H.
  change (c :: rev s) with (rev [c] ++ rev s).
  by rewrite <- rev_app_distr, rev_involutive.
Qed.

(** A text that starts and ends with a character that is not a space is
    what [trim] leaves of it when spaces are put around it. *)
Lemma trim_padded (ws1 ws2 mid : jstring) (a z : N) :
  forallb is_space ws1 = true -> forallb is_space ws2 = true ->
  is_space a = false -> is_space z = false ->
  trim (ws1 ++ a :: mid ++ [z] ++ ws2) = a :: mid ++ [z].
Proof.
  intros H1 H2 Ha Hz. unfold trim.
  assert (trim_start (ws1 ++ a :: mid ++ [z] ++ ws2) = a :: mid ++ [z] ++ ws2) as ->.
  { induction ws1 as [|c ws1 IH]; cbn [app trim_start].
    - by rewrite Ha.
    - cbn in H1. apply andb_true_iff in H1 as [-> H1]. auto. }
  rewrite (app_assoc mid [z] ws2), app_comm_cons.
  rewrite trim_end_spaces by done.
  rewrite app_comm_cons. by apply trim_end_nonspace.
Qed.

(** ** JSON.stringify and JSON.parse *)

Lemma hex_value_digit (d : N) : d < 16 -> hex_value (hex_digit d) = Some d.
Proof.
  intros H. unfold hex_value, hex_digit.
  destruct (d <? 10) eqn:Hd.
  - apply N.ltb_lt in Hd.
    replace ((48 <=? 48 + d) && (48 + d <=? 57)) with true
      by (symmetry; apply andb_true_iff; split; apply N.leb_le; lia).
    f_equal. lia.
  - apply N.ltb_ge in Hd.
    replace ((48 <=? 87 + d) && (87 + d <=? 57)) with false
      by (symmetry; apply andb_false_iff; right; apply N.leb_gt; lia).
    replace ((97 <=? 87 + d) && (87 + d <=? 102)) with true
      by (symmetry; apply andb_true_iff; split; apply N.leb_le; lia).
    f_equal. lia.
Qed.

Lemma hex_digits_value (c : N) :
  c < 65536 ->
  ((c / 4096 mod 16 * 16 + c / 256 mod 16) * 16 + c / 16 mod 16) * 16 + c mod 16 = c.
Proof. intros H. zify. Z.to_euclidean_division_equations. lia. Qed.

Lemma mod16_lt (n : N) : n mod 16 < 16.
Proof. apply N.mod_lt. done. Qed.

(** The parser reads back an escape [\uXXXX]. *)
Lemma parse_u_escape (c : N) (text t rest : jstring) :
  c < 65536 ->
  parse_string_body text = Some (t, rest) ->
  parse_string_body (u_escape c ++ text) = Some (c :: t, rest).
Proof.
  intros Hc Ht. unfold u_escape. cbn [app parse_string_body].
  change (BACKSLASH =? QUOTE) with false. change (BACKSLASH =? BACKSLASH) with true.
  change (117 =? 117) with true. cbv iota.
  rewrite !hex_value_digit by apply mod16_lt.
  cbn [mbind option_bind]. rewrite Ht. cbn [mbind option_bind].
  by rewrite hex_digits_value.
Qed.

Lemma parse_raw_unit (c : N) (text t rest : jstring) :
  c <> QUOTE -> c <> BACKSLASH -> 32 <= c ->
  parse_string_body text = Some (t, rest) ->
  parse_string_body (c :: text) = Some (c :: t, rest).
Proof.
  intros H1 H2 H3 Ht. cbn [parse_string_body].
  apply N.eqb_neq in H1, H2. rewrite H1, H2.
  replace (c <? 32) with false by (symmetry; apply N.ltb_ge; lia).
  by rewrite Ht.
Qed.

Lemma parse_escape_unit (c : N) (text t rest : jstring) :
  parse_string_body text = Some (t, rest) ->
  parse_string_body (escape_unit c ++ text) = Some (c :: t, rest).
Proof.
  intros Ht. unfold escape_unit.
  repeat match goal with
  | |- context [if ?x =? ?y then _ else _] =>
      destruct (N.eqb_spec x y) as [->|?];
      [cbn [app parse_string_body]; cbn; rewrite Ht; reflexivity|]
  end.
  destruct (N.ltb_spec c 32).
  - apply parse_u_escape; [lia|done].
  - by apply parse_raw_unit.
Qed.

Lemma surrogate_bounds (c : N) :
  is_high_surrogate c = true \/ is_low_surrogate c = true ->
  c <> QUOTE /\ c <> BACKSLASH /\ 32 <= c /\ c < 65536.
Proof.
  unfold is_high_surrogate, is_low_surrogate, QUOTE, BACKSLASH.
  intros [H|H]; apply andb_true_iff in H as [H1 H2];
    apply N.leb_le in H1, H2; lia.
Qed.

Lemma parse_quote_body_aux (n : nat) :
  forall s rest, (length s <= n)%nat ->
  parse_string_body (quote_body s ++ QUOTE :: rest) = Some (s, rest).
Proof.
  induction n as [|n IH]; intros s rest Hn.
  - destruct s; [reflexivity | cbn in Hn; lia].
  - destruct s as [|c r]; [reflexivity|].
    cbn [length] in Hn. cbn [quote_body].
    destruct (is_high_surrogate c) eqn:Hh.
    + destruct (surrogate_bounds c (or_introl Hh)) as (? & ? & ? & ?).
      destruct r as [|d r'].
      * by apply parse_u_escape.
      * destruct (is_low_surrogate d) eqn:Hl.
        -- destruct (surrogate_bounds d (or_intror Hl)) as (? & ? & ? & ?).
           cbn [app]. apply parse_raw_unit; try done.
           apply parse_raw_unit; try done.
           apply IH. cbn [length] in Hn. lia.
        -- rewrite <- app_assoc. apply parse_u_escape; [done|].
           apply IH. lia.
    + destruct (is_low_surrogate c) eqn:Hl.
      * destruct (surrogate_bounds c (or_intror Hl)) as (? & ? & ? & ?).
        rewrite <- app_assoc. apply parse_u_escape; [done|]. apply IH. lia.
      * rewrite <- app_assoc. apply parse_escape_unit. apply IH. lia.
Qed.

Lemma parse_quote_body (s rest : jstring) :
  parse_string_body (quote_body s ++ QUOTE :: rest) = Some (s, rest).
Proof. by apply (parse_quote_body_aux (length s)). Qed.

(** *** Values *)

Lemma json_induction (P : json -> Prop) :
  P JNull -> (forall b, P (JBool b)) -> (forall l, P (JNum l)) ->
  (forall s, P (JStr s)) ->
  (forall items, Forall P items -> P (JArr items)) ->
  (forall members, Forall (fun kv => P (snd kv)) members -> P (JObj members)) ->
  forall v, P v.
Proof.
  intros Hn Hb Hnum Hs Ha Ho. fix IH 1. intros [ | b | l | s | items | members].
  - exact Hn.
  - apply Hb.
  - apply Hnum.
  - apply Hs.
  - apply Ha. revert items. fix IHl 1. intros [|x xs].
    + constructor.
    + constructor; [apply IH | apply IHl].
  - apply Ho. revert members. fix IHl 1. intros [|[k x] ms].
    + constructor.
    + constructor; [apply IH | apply IHl].
Qed.


Lemma stringify_start (v : json) :
  number_free v = true ->
  exists c r, JSON_stringify v = c :: r /\ value_start c = true.
Proof.
  destruct v as [ | [] | l | s | items | members]; intros H; try discriminate H;
    cbn [JSON_stringify]; eexists _, _; (split; [reflexivity | reflexivity]).
Qed.

Lemma join_cons_cons (sep p q : jstring) (r : list jstring) :
  join sep (p :: q :: r) = p ++ sep ++ join sep (q :: r).
Proof. reflexivity. Qed.

Lemma value_start_facts (c : N) :
  value_start c = true ->
  is_json_ws c = false /\ (c =? 93) = false /\ (c =? 125) = false.
Proof.
  unfold value_start, QUOTE. intros H.
  repeat (apply orb_true_iff in H as [H|H]); apply N.eqb_eq in H; subst; done.
Qed.


Lemma parse_elements_roundtrip (xs : list json) :
  Forall roundtrips xs -> forallb number_free xs = true -> xs <> [] ->
  forall fuel rest,
    (list_sum (map (fun x => S (json_size x)) xs) <= fuel)%nat ->
    parse_elements fuel (join [44] (map JSON_stringify xs) ++ 93 :: rest)
    = Some (xs, rest).
Proof.
  induction 1 as [|x xs Hx Hxs IH]; intros Hnf Hne fuel rest Hfuel; [done|].
  cbn [forallb] in Hnf. apply andb_true_iff in Hnf as [Hnx Hnxs].
  cbn [map list_sum fold_right] in Hfuel.
  destruct fuel as [|fuel]; [lia|]. cbn [parse_elements].
  destruct xs as [|y ys].
  - cbn [map join]. rewrite (Hx Hnx) by lia. reflexivity.
  - cbn [map]. rewrite join_cons_cons, <- !app_assoc.
    rewrite (Hx Hnx) by lia. cbn [mbind option_bind app skip_ws].
    change (is_json_ws 44) with false. change (44 =? 44) with true. cbv iota.
    cbn [map] in IH. rewrite IH; [reflexivity|done|done|].
    cbn [map list_sum fold_right] in *. lia.
Qed.

Lemma parse_members_roundtrip (ms : list (jstring * json)) :
  Forall (fun kv => roundtrips (snd kv)) ms ->
  forallb (fun kv => number_free (snd kv)) ms = true -> ms <> [] ->
  forall fuel rest,
    (list_sum (map (fun kv => S (json_size (snd kv))) ms) <= fuel)%nat ->
    parse_members fuel
      (join [44] (map (fun kv => quote (fst kv) ++ js ":" ++ JSON_stringify (snd kv)) ms)
       ++ 125 :: rest)
    = Some (ms, rest).
Proof.
  induction 1 as [|[k x] ms Hx Hms IH]; intros Hnf Hne fuel rest Hfuel; [done|].
  cbn [forallb snd] in Hnf. apply andb_true_iff in Hnf as [Hnx Hnms].
  cbn [map list_sum fold_right snd fst] in Hfuel. cbn [snd] in Hx.
  destruct fuel as [|fuel]; [lia|]. cbn [parse_members].
  assert (forall tail,
    skip_ws ((quote k ++ js ":" ++ JSON_stringify x) ++ tail)
    = QUOTE :: quote_body k ++ QUOTE :: 58 :: JSON_stringify x ++ tail) as Hk.
  { intros tail. unfold quote. change (js ":") with [58].
    rewrite <- !app_assoc. cbn [app skip_ws].
    change (is_json_ws QUOTE) with false. cbv iota.
    by rewrite <- !app_assoc. }
  destruct ms as [|y ys].
  - cbn [map join fst snd]. rewrite Hk.
    change (QUOTE =? QUOTE) with true. cbv iota.
    rewrite parse_quote_body. cbn [mbind option_bind skip_ws].
    change (is_json_ws 58) with false. change (58 =? 58) with true. cbv iota.
    rewrite (Hx Hnx) by lia. reflexivity.
  - cbn [map]. rewrite join_cons_cons. cbn [fst snd].
    rewrite <- (app_assoc _ ([44] ++ _)). rewrite Hk.
    change (QUOTE =? QUOTE) with true. cbv iota.
    rewrite parse_quote_body. cbn [mbind option_bind skip_ws].
    change (is_json_ws 58) with false. change (58 =? 58) with true. cbv iota.
    rewrite <- app_assoc. rewrite (Hx Hnx) by lia.
    cbn [mbind option_bind app skip_ws].
    change (is_json_ws 44) with false. change (44 =? 44) with true. cbv iota.
    cbn [map] in IH. rewrite IH; [reflexivity|done|done|].
    cbn [map list_sum fold_right] in *. lia.
Qed.

Lemma join_start (sep : jstring) (c : N) (r : jstring) (ps : list jstring) :
  exists r', join sep ((c :: r) :: ps) = c :: r'.
Proof. destruct ps; cbn [join app]; eauto. Qed.

Lemma parse_value_roundtrip (v : json) : roundtrips v.
Proof.
  induction v as [ | b | l | s | items IH | members IH] using json_induction;
    intros Hnf fuel rest Hfuel; cbn [json_size] in Hfuel;
    (destruct fuel as [|fuel]; [lia|]).
  - reflexivity.
  - destruct b; reflexivity.
  - discriminate Hnf.
  - cbn [JSON_stringify parse_value]. unfold quote.
    cbn [app]. rewrite <- app_assoc. cbn [app skip_ws].
    change (is_json_ws QUOTE) with false. cbv iota.
    change (QUOTE =? 123) with false. change (QUOTE =? 91) with false.
    change (QUOTE =? QUOTE) with true. cbv iota.
    by rewrite parse_quote_body.
  - cbn [JSON_stringify number_free] in *. change (js "[") with [91].
    change (js "]") with [93]. change (js ",") with [44].
    rewrite <- !app_assoc. cbn [app parse_value skip_ws].
    change (is_json_ws 91) with false. cbv iota.
    change (91 =? 123) with false. change (91 =? 91) with true. cbv iota.
    destruct items as [|x xs]; [reflexivity|].
    destruct (stringify_start x) as (c & r & Hc & Hstart).
    { cbn [forallb] in Hnf. by apply andb_true_iff in Hnf as [? _]. }
    destruct (value_start_facts c Hstart) as (Hws & H93 & _).
    pose proof (parse_elements_roundtrip (x :: xs) IH Hnf ltac:(done) fuel rest
                  ltac:(lia)) as Hel.
    cbn [map] in *. rewrite Hc in *.
    destruct (join_start [44] c r (map JSON_stringify xs)) as [r' Hj].
    rewrite Hel, Hj. cbn [app skip_ws]. by rewrite Hws, H93.
  - cbn [JSON_stringify number_free] in *. change (js "{") with [123].
    change (js "}") with [125]. change (js ",") with [44].
    rewrite <- !app_assoc. cbn [app parse_value skip_ws].
    change (is_json_ws 123) with false. cbv iota.
    change (123 =? 123) with true. cbv iota.
    destruct members as [|[k x] ms]; [reflexivity|].
    pose proof (parse_members_roundtrip ((k, x) :: ms) IH Hnf ltac:(done) fuel rest
                  ltac:(lia)) as Hel.
    change (js ",") with [44] in Hel. rewrite Hel.
    cbn [map fst snd]. unfold quote at 1.
    destruct (join_start [44] QUOTE ((quote_body k ++ [QUOTE]) ++ js ":" ++ JSON_stringify x)
                (map (fun kv => quote (fst kv) ++ js ":" ++ JSON_stringify (snd kv)) ms))
      as [r' Hj].
    cbn [app] in Hj |- *. rewrite Hj. cbn [app skip_ws].
    change (is_json_ws QUOTE) with false. cbv iota.
    by change (QUOTE =? 125) with false.
Qed.

Lemma list_sum_cons (a : nat) (l : list nat) :
  list_sum (a :: l) = (a + list_sum l)%nat.
Proof. reflexivity. Qed.

Lemma join_length (c : N) (ps : list jstring) :
  (list_sum (map (fun p => S (length p)) ps) <= S (length (join [c] ps)))%nat.
Proof.
  induction ps as [|p ps IH]; [cbn; lia|].
  destruct ps as [|q ps].
  - cbn. lia.
  - rewrite join_cons_cons, !length_app.
    rewrite map_cons, list_sum_cons. cbn [length]. lia.
Qed.

Lemma list_sum_le {A} (f g : A -> nat) (xs : list A) :
  Forall (fun x => f x <= g x)%nat xs ->
  (list_sum (map f xs) <= list_sum (map g xs))%nat.
Proof.
  induction 1; [done|]. rewrite !map_cons, !list_sum_cons. lia.
Qed.

Lemma json_size_length (v : json) :
  number_free v = true -> (json_size v <= length (JSON_stringify v))%nat.
Proof.
  induction v as [ | b | l | s | items IH | members IH] using json_induction;
    intros Hnf.
  - cbn. lia.
  - destruct b; cbn; lia.
  - discriminate Hnf.
  - cbn [JSON_stringify json_size]. unfold quote. cbn [length]. lia.
  - cbn [JSON_stringify json_size number_free] in *.
    rewrite !length_app. change (length (js "[")) with 1%nat.
    change (length (js "]")) with 1%nat.
    pose proof (join_length 44 (map JSON_stringify items)) as Hj.
    rewrite map_map in Hj. change (js ",") with [44].
    enough (list_sum (map (fun x => S (json_size x)) items)
            <= list_sum (map (fun x => S (length (JSON_stringify x))) items))%nat by lia.
    apply list_sum_le. rewrite forallb_forall in Hnf. rewrite Forall_forall in *.
    intros x Hx. specialize (IH x Hx (Hnf x ltac:(by apply list_elem_of_In))). lia.
  - cbn [JSON_stringify json_size number_free] in *.
    rewrite !length_app. change (length (js "{")) with 1%nat.
    change (length (js "}")) with 1%nat.
    pose proof (join_length 44
      (map (fun kv => quote (fst kv) ++ js ":" ++ JSON_stringify (snd kv)) members)) as Hj.
    rewrite map_map in Hj. change (js ",") with [44].
    enough (list_sum (map (fun kv => S (json_size (snd kv))) members)
            <= list_sum (map (fun kv => S (length (quote (fst kv) ++ js ":"
                                              ++ JSON_stringify (snd kv)))) members))%nat by lia.
    apply list_sum_le. rewrite forallb_forall in Hnf. rewrite Forall_forall in *.
    intros kv Hkv. specialize (IH kv Hkv (Hnf kv ltac:(by apply list_elem_of_In))).
    rewrite !length_app. lia.
Qed.

(** [JSON.parse] reads back what [JSON.stringify] printed. *)
Lemma JSON_parse_stringify (v : json) :
  number_free v = true -> JSON_parse (JSON_stringify v) = Some v.
Proof.
  intros Hnf. unfold JSON_parse.
  pose proof (parse_value_roundtrip v Hnf (parse_fuel (JSON_stringify v)) []) as H.
  rewrite app_nil_r in H. rewrite H; [reflexivity|].
  pose proof (json_size_length v Hnf). unfold parse_fuel. lia.
Qed.

(** ** The fuel of the parser is enough *)

Lemma skip_ws_length (s : jstring) : (length (skip_ws s) <= length s)%nat.
Proof.
  induction s as [|c s IH]; cbn [skip_ws length]; [lia|].
  destruct (is_json_ws c); cbn [length]; lia.
Qed.

Lemma skip_ws_cons_length (s r : jstring) (c : N) :
  skip_ws s = c :: r -> (length r < length s)%nat.
Proof. intros H. pose proof (skip_ws_length s). rewrite H in *. cbn in *. lia. Qed.

Lemma strip_prefix_length (p s r : jstring) :
  strip_prefix p s = Some r -> (length r + length p = length s)%nat.
Proof.
  revert s. induction p as [|a p IH]; intros [|b s] H; cbn in H; try done.
  - inversion H. cbn. lia.
  - inversion H. cbn. lia.
  - destruct (a =? b); [|done]. apply IH in H. cbn. lia.
Qed.

Lemma parse_string_body_length (s t r : jstring) :
  parse_string_body s = Some (t, r) -> (length r < length s)%nat.
Proof.
  revert t r. induction s as [s IH] using (induction_ltof1 _ (@length N)).
  unfold ltof in IH.
  intros t r H. destruct s as [|c s]; [done|]. cbn [parse_string_body] in H.
  destruct (c =? QUOTE); [inversion H; subst; cbn; lia|].
  destruct (c =? BACKSLASH).
  - destruct s as [|e s1]; [done|].
    destruct (e =? 117).
    + destruct s1 as [|h1 [|h2 [|h3 [|h4 s2]]]]; try done.
      destruct (hex_value h1), (hex_value h2), (hex_value h3), (hex_value h4);
        cbn in H; try done.
      destruct (parse_string_body s2) as [[t' r']|] eqn:Hs2; cbn in H; [|done].
      inversion H; subst. apply IH in Hs2; cbn in *; lia.
    + destruct (unescape e); cbn in H; [|done].
      destruct (parse_string_body s1) as [[t' r']|] eqn:Hs1; cbn in H; [|done].
      inversion H; subst. apply IH in Hs1; cbn in *; lia.
  - destruct (c <? 32); [done|].
    destruct (parse_string_body s) as [[t' r']|] eqn:Hs; cbn in H; [|done].
    inversion H; subst. apply IH in Hs; cbn in *; lia.
Qed.

Lemma span_digits_length (s ds r : jstring) :
  span_digits s = (ds, r) -> (length r <= length s)%nat.
Proof.
  revert ds r. induction s as [|c s IH]; intros ds r H; cbn in H.
  - inversion H. cbn. lia.
  - destruct (is_digit c).
    + destruct (span_digits s) as [ds' r'] eqn:Hs. inversion H; subst.
      specialize (IH _ _ eq_refl). cbn. lia.
    + inversion H; subst. lia.
Qed.

Lemma parse_number_length (s l r : jstring) :
  parse_number s = Some (l, r) -> (length r < length s)%nat.
Proof.
  unfold parse_number. intros H.
  assert (forall s0 i r1, parse_int s0 = Some (i, r1) -> (length r1 < length s0)%nat) as Hint.
  { intros [|c s0] i r1 Hi; cbn in Hi; [done|].
    destruct (c =? 48); [inversion Hi; subst; cbn; lia|].
    destruct (is_digit c); [|done].
    destruct (span_digits s0) as [ds rest] eqn:Hsp. inversion Hi; subst.
    apply span_digits_length in Hsp. cbn. lia. }
  assert (forall s0 f r2, parse_frac s0 = Some (f, r2) -> (length r2 <= length s0)%nat) as Hfrac.
  { intros [|c s0] f r2 Hf; cbn in Hf; [inversion Hf; cbn; lia|].
    destruct (c =? 46); [|inversion Hf; subst; lia].
    destruct (span_digits s0) as [[|d ds] rest] eqn:Hsp; [done|].
    inversion Hf; subst. apply span_digits_length in Hsp. cbn. lia. }
  assert (forall s0 e r3, parse_exp s0 = Some (e, r3) -> (length r3 <= length s0)%nat) as Hexp.
  { intros [|c s0] e r3 He; cbn in He; [inversion He; cbn; lia|].
    destruct ((c =? 101) || (c =? 69)); [|inversion He; subst; lia].
    destruct s0 as [|d s1].
    - cbn in He. done.
    - destruct ((d =? 43) || (d =? 45)).
      + destruct (span_digits s1) as [[|x ds] rest] eqn:Hsp; [done|].
        inversion He; subst. apply span_digits_length in Hsp. cbn. lia.
      + destruct (span_digits (d :: s1)) as [[|x ds] rest] eqn:Hsp; [done|].
        inversion He; subst. apply span_digits_length in Hsp. cbn in *. lia. }
  destruct s as [|c s].
  - cbn in H. done.
  - destruct (c =? 45).
    + destruct (parse_int s) as [[i r1]|] eqn:Hi; cbn in H; [|done].
      destruct (parse_frac r1) as [[f r2]|] eqn:Hf; cbn in H; [|done].
      destruct (parse_exp r2) as [[e r3]|] eqn:He; cbn in H; [|done].
      inversion H; subst. apply Hint in Hi. apply Hfrac in Hf. apply Hexp in He.
      cbn. lia.
    + destruct (parse_int (c :: s)) as [[i r1]|] eqn:Hi; cbn in H; [|done].
      destruct (parse_frac r1) as [[f r2]|] eqn:Hf; cbn in H; [|done].
      destruct (parse_exp r2) as [[e r3]|] eqn:He; cbn in H; [|done].
      inversion H; subst. apply Hint in Hi. apply Hfrac in Hf. apply Hexp in He.
      lia.
Qed.

Lemma parse_value_unfold (fuel : nat) (s : jstring) :
  parse_value (S fuel) s =
  match skip_ws s with
  | [] => None
  | c :: r =>
      if c =? 123 then
        match skip_ws r with
        | c' :: r' =>
            if c' =? 125 then Some (JObj [], r')
            else '(ms, rest) ← parse_members fuel r; Some (JObj ms, rest)
        | [] => None
        end
      else if c =? 91 then
        match skip_ws r with
        | c' :: r' =>
            if c' =? 93 then Some (JArr [], r')
            else '(vs, rest) ← parse_elements fuel r; Some (JArr vs, rest)
        | [] => None
        end
      else if c =? QUOTE then
        '(t, rest) ← parse_string_body r; Some (JStr t, rest)
      else if c =? 116 then
        rest ← strip_prefix (js "true") (c :: r); Some (JBool true, rest)
      else if c =? 102 then
        rest ← strip_prefix (js "false") (c :: r); Some (JBool false, rest)
      else if c =? 110 then
        rest ← strip_prefix (js "null") (c :: r); Some (JNull, rest)
      else
        '(lexeme, rest) ← parse_number (c :: r); Some (JNum lexeme, rest)
  end.
Proof. reflexivity. Qed.

Lemma parse_elements_unfold (fuel : nat) (s : jstring) :
  parse_elements (S fuel) s =
  '(v, r) ← parse_value fuel s;
  match skip_ws r with
  | c :: r' =>
      if c =? 44 then
        '(vs, rest) ← parse_elements fuel r'; Some (v :: vs, rest)
      else if c =? 93 then Some ([v], r')
      else None
  | [] => None
  end.
Proof. reflexivity. Qed.

Lemma parse_members_unfold (fuel : nat) (s : jstring) :
  parse_members (S fuel) s =
  match skip_ws s with
  | c :: r =>
      if c =? QUOTE then
        '(k, r1) ← parse_string_body r;
        match skip_ws r1 with
        | c1 :: r2 =>
            if c1 =? 58 then
              '(v, r3) ← parse_value fuel r2;
              match skip_ws r3 with
              | c2 :: r4 =>
                  if c2 =? 44 then
                    '(ms, rest) ← parse_members fuel r4;
                    Some ((k, v) :: ms, rest)
                  else if c2 =? 125 then Some ([(k, v)], r4)
                  else None
              | [] => None
              end
            else None
        | [] => None
        end
      else None
  | [] => None
  end.
Proof. reflexivity. Qed.

(** Length facts about what the leaf parsers leave. *)
Ltac length_facts :=
  repeat match goal with
  | H : skip_ws _ = _ :: _ |- _ => apply skip_ws_cons_length in H
  | H : parse_string_body _ = Some _ |- _ => apply parse_string_body_length in H
  | H : parse_number _ = Some _ |- _ => apply parse_number_length in H
  | H : strip_prefix _ _ = Some _ |- _ => apply strip_prefix_length in H
  end.

Lemma parsers_consume (fuel : nat) :
  (forall s v r, parse_value fuel s = Some (v, r) -> (length r < length s)%nat)
  /\ (forall s vs r, parse_elements fuel s = Some (vs, r) -> (length r < length s)%nat)
  /\ (forall s ms r, parse_members fuel s = Some (ms, r) -> (length r < length s)%nat).
Proof.
  induction fuel as [|fuel (IHv & IHe & IHm)]; [by repeat split|].
  split; [|split].
  - intros s v r H. rewrite parse_value_unfold in H.
    destruct (skip_ws s) as [|c r0] eqn:Hs; [done|].
    destruct (c =? 123).
    { destruct (skip_ws r0) as [|c' r'] eqn:Hr0; [done|].
      destruct (c' =? 125).
      - inversion H; subst. length_facts. lia.
      - destruct (parse_members fuel r0) as [[ms rest]|] eqn:Hm; [|done].
        inversion H; subst. apply IHm in Hm. length_facts. lia. }
    destruct (c =? 91).
    { destruct (skip_ws r0) as [|c' r'] eqn:Hr0; [done|].
      destruct (c' =? 93).
      - inversion H; subst. length_facts. lia.
      - destruct (parse_elements fuel r0) as [[vs rest]|] eqn:Hm; [|done].
        inversion H; subst. apply IHe in Hm. length_facts. lia. }
    destruct (c =? QUOTE).
    { destruct (parse_string_body r0) as [[t rest]|] eqn:Hm; [|done].
      inversion H; subst. length_facts. lia. }
    destruct (c =? 116).
    { destruct (strip_prefix (js "true") (c :: r0)) as [rest|] eqn:Hm; [|done].
      inversion H; subst. length_facts. cbn in *. lia. }
    destruct (c =? 102).
    { destruct (strip_prefix (js "false") (c :: r0)) as [rest|] eqn:Hm; [|done].
      inversion H; subst. length_facts. cbn in *. lia. }
    destruct (c =? 110).
    { destruct (strip_prefix (js "null") (c :: r0)) as [rest|] eqn:Hm; [|done].
      inversion H; subst. length_facts. cbn in *. lia. }
    destruct (parse_number (c :: r0)) as [[l rest]|] eqn:Hm; [|done].
    inversion H; subst. length_facts. cbn in *. lia.
  - intros s vs r H. rewrite parse_elements_unfold in H.
    destruct (parse_value fuel s) as [[v r0]|] eqn:Hv; [|done].
    cbn [mbind option_bind] in H. apply IHv in Hv.
    destruct (skip_ws r0) as [|c r'] eqn:Hr0; [done|].
    destruct (c =? 44).
    + destruct (parse_elements fuel r') as [[vs' rest]|] eqn:He; [|done].
      inversion H; subst. apply IHe in He. length_facts. lia.
    + destruct (c =? 93); [|done]. inversion H; subst. length_facts. lia.
  - intros s ms r H. rewrite parse_members_unfold in H.
    destruct (skip_ws s) as [|c r0] eqn:Hs; [done|].
    destruct (c =? QUOTE); [|done].
    destruct (parse_string_body r0) as [[k r1]|] eqn:Hk; [|done].
    cbn [mbind option_bind] in H.
    destruct (skip_ws r1) as [|c1 r2] eqn:Hr1; [done|].
    destruct (c1 =? 58); [|done].
    destruct (parse_value fuel r2) as [[v r3]|] eqn:Hv; [|done].
    cbn [mbind option_bind] in H. apply IHv in Hv.
    destruct (skip_ws r3) as [|c2 r4] eqn:Hr3; [done|].
    destruct (c2 =? 44).
    + destruct (parse_members fuel r4) as [[ms' rest]|] eqn:Hm; [|done].
      inversion H; subst. apply IHm in Hm. length_facts. lia.
    + destruct (c2 =? 125); [|done]. inversion H; subst. length_facts. lia.
Qed.

Lemma parsers_stable (fuel : nat) :
  (forall s fuel', (2 * length s + 1 <= fuel)%nat -> (fuel <= fuel')%nat ->
     parse_value fuel' s = parse_value fuel s)
  /\ (forall s fuel', (2 * length s + 2 <= fuel)%nat -> (fuel <= fuel')%nat ->
        parse_elements fuel' s = parse_elements fuel s)
  /\ (forall s fuel', (2 * length s + 2 <= fuel)%nat -> (fuel <= fuel')%nat ->
        parse_members fuel' s = parse_members fuel s).
Proof.
  induction fuel as [|fuel (IHv & IHe & IHm)]; [repeat split; intros; lia|].
  split; [|split]; intros s [|fuel'] Hb Hle; try lia.
  - rewrite !parse_value_unfold.
    destruct (skip_ws s) as [|c r0] eqn:Hs; [done|].
    apply skip_ws_cons_length in Hs.
    rewrite (IHm r0 fuel') by lia. rewrite (IHe r0 fuel') by lia. reflexivity.
  - rewrite !parse_elements_unfold.
    rewrite (IHv s fuel') by lia.
    destruct (parse_value fuel s) as [[v r0]|] eqn:Hv; [|done].
    cbn [mbind option_bind]. apply (proj1 (parsers_consume fuel)) in Hv.
    destruct (skip_ws r0) as [|c r'] eqn:Hr0; [done|].
    apply skip_ws_cons_length in Hr0.
    rewrite (IHe r' fuel') by lia. reflexivity.
  - rewrite !parse_members_unfold.
    destruct (skip_ws s) as [|c r0] eqn:Hs; [done|].
    apply skip_ws_cons_length in Hs.
    destruct (c =? QUOTE); [|done].
    destruct (parse_string_body r0) as [[k r1]|] eqn:Hk; [|done].
    cbn [mbind option_bind]. apply parse_string_body_length in Hk.
    destruct (skip_ws r1) as [|c1 r2] eqn:Hr1; [done|].
    apply skip_ws_cons_length in Hr1.
    destruct (c1 =? 58); [|done].
    rewrite (IHv r2 fuel') by lia.
    destruct (parse_value fuel r2) as [[v r3]|] eqn:Hv; [|done].
    cbn [mbind option_bind]. apply (proj1 (parsers_consume fuel)) in Hv.
    destruct (skip_ws r3) as [|c2 r4] eqn:Hr3; [done|].
    apply skip_ws_cons_length in Hr3.
    rewrite (IHm r4 fuel') by lia. reflexivity.
Qed.

(** More fuel than [parse_fuel] never changes what the parser answers: it
    does not fail for lack of fuel. *)
Theorem parse_value_fuel_enough (s : jstring) (fuel : nat) :
  (parse_fuel s <= fuel)%nat -> parse_value fuel s = parse_value (parse_fuel s) s.
Proof.
  intros H. apply (proj1 (parsers_stable (parse_fuel s))); [|done].
  unfold parse_fuel. lia.
Qed.

(** ** The world *)

Lemma set_vault_same (w : world) : set_vault (vault w) w = w.
Proof. by destruct w. Qed.

Lemma ensure_step (dir : jstring) (w : world) :
  (exists_ <~ adapter_exists dir ;;
   if negb exists_ then createFolder dir else ret tt) w
  = (Ok tt, set_vault (ensure_folder dir (vault w)) w).
Proof.
  unfold bind, adapter_exists, createFolder, ensure_folder, ret.
  destruct (vault w !! dir) eqn:Hd.
  - rewrite bool_decide_eq_true_2 by eauto. cbn. by rewrite set_vault_same.
  - rewrite bool_decide_eq_false_2 by (intros [? ?]; done). cbn. by rewrite Hd.
Qed.

Lemma ensureDirectoriesExist_run (w : world) :
  ensureDirectoriesExist w = (Ok tt, set_vault (with_output_folders (vault w)) w).
Proof.
  unfold ensureDirectoriesExist. cbn [for_each].
  unfold bind at 1. rewrite ensure_step.
  unfold bind at 1. rewrite ensure_step.
  unfold bind at 1. rewrite ensure_step.
  reflexivity.
Qed.

(** The folders are new entries: every document is as it was. *)
Lemma ensure_folder_documents (dir : jstring) (v : gmap jstring node) (p data : jstring) :
  ensure_folder dir v !! p = Some (File data) <-> v !! p = Some (File data).
Proof.
  unfold ensure_folder. destruct (v !! dir) eqn:Hd; [done|].
  destruct (decide (dir = p)) as [->|Hne].
  - rewrite lookup_insert_eq, Hd. split; intros; discriminate.
  - by rewrite lookup_insert_ne.
Qed.

Lemma with_output_folders_documents (v : gmap jstring node) (p data : jstring) :
  with_output_folders v !! p = Some (File data) <-> v !! p = Some (File data).
Proof. unfold with_output_folders. by rewrite !ensure_folder_documents. Qed.

(** ** Running a sequence *)

Lemma bind_ok {A B} (m : M A) (k : A -> M B) (w w' : world) (a : A) :
  m w = (Ok a, w') -> bind m k w = k a w'.
Proof. intros H. unfold bind. by rewrite H. Qed.

Lemma bind_throw {A B} (m : M A) (k : A -> M B) (w w' : world) (e : js_error) :
  m w = (Throw e, w') -> bind m k w = (Throw e, w').
Proof. intros H. unfold bind. by rewrite H. Qed.

Lemma try_catch_throw {A} (m : M A) (h : js_error -> M A) (w w' : world) (e : js_error) :
  m w = (Throw e, w') -> try_catch m h w = h e w'.
Proof. intros H. unfold try_catch. by rewrite H. Qed.

(** ** Components of the world that a computation leaves alone *)

Lemma preserves_ret {A X} (c : world -> X) (a : A) : preserves c (ret a).
Proof. by intros w. Qed.

Lemma preserves_throw {A X} (c : world -> X) (e : js_error) : preserves c (@throw A e).
Proof. by intros w. Qed.

Lemma preserves_lift {A X} (c : world -> X) (r : result A) : preserves c (lift r).
Proof. by intros w. Qed.

Lemma preserves_bind {A B X} (c : world -> X) (m : M A) (k : A -> M B) :
  preserves c m -> (forall a, preserves c (k a)) -> preserves c (bind m k).
Proof.
  intros Hm Hk w. unfold bind. specialize (Hm w).
  destruct (m w) as [[a|e] w']; cbn in *; [|done].
  by rewrite Hk.
Qed.

Lemma preserves_try_catch {A X} (c : world -> X) (m : M A) (h : js_error -> M A) :
  preserves c m -> (forall e, preserves c (h e)) -> preserves c (try_catch m h).
Proof.
  intros Hm Hh w. unfold try_catch. specialize (Hm w).
  destruct (m w) as [[a|e] w']; cbn in *; [done|].
  by rewrite Hh.
Qed.

Lemma fetch_vault (E : environment) (r : http_request) : preserves vault (fetch E r).
Proof. intros w. unfold fetch. by destruct (service E r). Qed.

Lemma fetch_notices (E : environment) (r : http_request) : preserves notices (fetch E r).
Proof. intros w. unfold fetch. by destruct (service E r). Qed.

Lemma response_json_preserves {X} (c : world -> X) (E : environment) (r : http_response) :
  preserves c (response_json E r).
Proof. intros w. unfold response_json. by destruct (JSON_parse (payload r)). Qed.

Lemma console_error_vault (args : list log_arg) : preserves vault (console_error args).
Proof. by intros w. Qed.

Lemma console_error_notices (args : list log_arg) : preserves notices (console_error args).
Proof. by intros w. Qed.

Lemma vault_create_notices (p : jstring) (d : value) : preserves notices (vault_create p d).
Proof.
  intros w. unfold vault_create.
  destruct (vault w !! p); [done|]. by destruct d as [[]|].
Qed.

Lemma vault_read_preserves {X} (c : world -> X) (p : jstring) : preserves c (vault_read p).
Proof. intros w. unfold vault_read. by destruct (vault w !! p) as [[]|]. Qed.

Lemma vault_modify_notices (p d : jstring) : preserves notices (vault_modify p d).
Proof. intros w. unfold vault_modify. by destruct (vault w !! p) as [[]|]. Qed.

Lemma getAbstractFileByPath_preserves {X} (c : world -> X) (p : jstring) :
  preserves c (getAbstractFileByPath p).
Proof. by intros w. Qed.

Lemma for_each_preserves {A X} (c : world -> X) (xs : list A) (f : A -> M unit) :
  (forall x, preserves c (f x)) -> preserves c (for_each xs f).
Proof.
  intros Hf. induction xs as [|x xs IH]; cbn [for_each].
  - apply preserves_ret.
  - apply preserves_bind; auto.
Qed.

Create HintDb preserves.
#[local] Hint Resolve preserves_ret preserves_throw preserves_lift
  fetch_vault fetch_notices response_json_preserves console_error_vault
  console_error_notices vault_create_notices vault_read_preserves
  vault_modify_notices getAbstractFileByPath_preserves : preserves.

Ltac preserves_step :=
  match goal with
  | |- preserves _ (bind _ _) => apply preserves_bind; [|intros]
  | |- preserves _ (try_catch _ _) => apply preserves_try_catch; [|intros]
  | |- preserves _ (for_each _ _) => apply for_each_preserves; intros
  | |- preserves _ (if ?b then _ else _) => destruct b
  | |- preserves _ (match ?x with _ => _ end) => destruct x
  | |- preserves _ _ => solve [auto with preserves]
  end.

Lemma requestCompletion_vault (E : environment) (this : plugin) (prompt : jstring) :
  preserves vault (requestCompletion E this prompt).
Proof. unfold requestCompletion. repeat preserves_step. Qed.

Lemma requestCompletion_notices (E : environment) (this : plugin) (prompt : jstring) :
  preserves notices (requestCompletion E this prompt).
Proof. unfold requestCompletion. repeat preserves_step. Qed.

Lemma extractPayload_notices (E : environment) (m : value) :
  preserves notices (extractPayload E m).
Proof. unfold extractPayload. repeat preserves_step. Qed.

Lemma taskLines_preserves {X} (c : world -> X) (d : json) : preserves c (taskLines d).
Proof. unfold taskLines. repeat preserves_step. Qed.

Lemma writeArtifacts_notices (filename : jstring) (d : json) :
  preserves notices (writeArtifacts filename d).
Proof.
  unfold writeArtifacts, writeSummary, writeNotes, appendTasks.
  repeat first [apply taskLines_preserves | preserves_step].
Qed.

(** ** The pipeline and the completion service *)

Lemma loadSettings_no_credential (data : option saved_data) :
  stored_credential data = None \/ stored_credential data = Some [] ->
  apiKey (settings (loadSettings data)) = [].
Proof.
  unfold stored_credential, loadSettings. cbn.
  destruct data as [[[k|]]|]; cbn; intros [H|H]; try done; by inversion H.
Qed.

Lemma parseAndOutput_no_key (E : environment) (this : plugin)
    (filename content : jstring) (w : world) :
  apiKey (settings this) = [] ->
  parseAndOutput E this filename content w
  = (Throw (Error (js "OpenAI API key not set")),
     World (with_output_folders (vault w)) (notices w ++ [MISSING_KEY_NOTICE])
           (console w) (network w)).
Proof.
  intros Hk. unfold parseAndOutput. rewrite Hk.
  unfold bind at 1. rewrite ensureDirectoriesExist_run. reflexivity.
Qed.

(** C9. With no stored API key, or an empty one, [parseAndOutput] throws
    the error [OpenAI API key not set] after telling the user, and no
    request has gone out. *)
Theorem missing_credential_fails_before_network (E : environment)
    (data : option saved_data) (filename content : jstring) (w : world) :
  stored_credential data = None \/ stored_credential data = Some [] ->
  exists w',
    parseAndOutput E (loadSettings data) filename content w
    = (Throw (Error (js "OpenAI API key not set")), w')
    /\ network w' = network w
    /\ notices w' = notices w ++ [MISSING_KEY_NOTICE].
Proof.
  intros H. apply loadSettings_no_credential in H.
  eexists. rewrite parseAndOutput_no_key by done. done.
Qed.

(** With a key, [parseAndOutput] is the three stages behind the folder
    creation, and the handler that logs and rethrows. *)
Lemma parseAndOutput_with_key (E : environment) (this : plugin)
    (filename content : jstring) (w : world) :
  apiKey (settings this) <> [] ->
  parseAndOutput E this filename content w
  = try_catch
      (messageContent <~ requestCompletion E this (prompt_of content) ;;
       structuredData <~ extractPayload E messageContent ;;
       writeArtifacts filename structuredData)
      (fun error =>
         console_error [LogText (js "Error calling OpenAI API:"); LogError error] ;;;
         throw error)
      (set_vault (with_output_folders (vault w)) w).
Proof.
  intros Hk. unfold parseAndOutput.
  unfold bind at 1. rewrite ensureDirectoriesExist_run.
  destruct (apiKey (settings this)); [done|]. reflexivity.
Qed.

(** The ways the call of the completion service fails: the request is
    rejected, the status is not in the success range, or the reply has no
    content. *)
Lemma requestCompletion_rejected (E : environment) (this : plugin)
    (prompt : jstring) (w : world) (e : js_error) :
  service E (completion_request (apiKey (settings this)) prompt) = Rejects e ->
  fst (requestCompletion E this prompt w) = Throw e.
Proof.
  intros H. unfold requestCompletion, bind at 1, fetch. by rewrite H.
Qed.

Lemma requestCompletion_http_error (E : environment) (this : plugin)
    (prompt : jstring) (w : world) (r : http_response) :
  service E (completion_request (apiKey (settings this)) prompt) = Responds r ->
  ok r = false ->
  exists e, fst (requestCompletion E this prompt w) = Throw e.
Proof.
  intros H Hok. unfold requestCompletion, bind at 1, fetch. rewrite H.
  unfold bind at 1. rewrite Hok. cbn [negb]. unfold bind at 1, response_json.
  destruct (JSON_parse (payload r)) as [errorData|]; [|by eexists].
  unfold ret at 1. unfold bind at 1, lift at 1.
  destruct (get_prop (Some errorData) (js "error")) as [error|e]; [|by eexists].
  unfold bind at 1, lift at 1.
  destruct (get_prop_optional error (js "message")) as [message|e]; [|by eexists].
  unfold bind at 1, lift at 1.
  destruct (to_string _) as [text|e]; by eexists.
Qed.

Lemma requestCompletion_empty_content (E : environment) (this : plugin)
    (prompt : jstring) (w : world) :
  service E (completion_request (apiKey (settings this)) prompt)
  = Responds (HttpResponse 200 (js "OK")
                (dq "{'choices':[{'message':{'content':''}}]}")) ->
  fst (requestCompletion E this prompt w)
  = Throw (Error (js "No response content received from OpenAI")).
Proof.
  intros H. unfold requestCompletion, bind at 1, fetch. rewrite H. reflexivity.
Qed.

(** C2 (amended). When the call of the completion service fails, be it for
    a missing key or because [requestCompletion] throws, the pipeline
    throws and the vault is the one it started with plus the output
    folders that were missing: no document is created or changed. *)
Theorem completion_failure_writes_no_document (E : environment) (this : plugin)
    (filename content : jstring) (w : world) :
  (apiKey (settings this) = [] \/
   exists e, fst (requestCompletion E this (prompt_of content)
                    (set_vault (with_output_folders (vault w)) w)) = Throw e) ->
  let outcome := parseAndOutput E this filename content w in
  (exists e, fst outcome = Throw e)
  /\ vault (snd outcome) = with_output_folders (vault w)
  /\ forall p data,
       vault (snd outcome) !! p = Some (File data) <-> vault w !! p = Some (File data).
Proof.
  intros H outcome.
  assert ((exists e, fst outcome = Throw e)
          /\ vault (snd outcome) = with_output_folders (vault w)) as [H1 H2].
  { subst outcome. destruct (apiKey (settings this)) eqn:Hk.
    - rewrite parseAndOutput_no_key by done. eauto.
    - destruct H as [H|[e He]]; [done|].
      rewrite parseAndOutput_with_key by (rewrite Hk; done).
      pose proof (requestCompletion_vault E this (prompt_of content)
                    (set_vault (with_output_folders (vault w)) w)) as Hv.
      destruct (requestCompletion E this (prompt_of content) _) as [[a|e'] w'] eqn:Hrc;
        cbn in He, Hv; [done|].
      erewrite try_catch_throw by (by apply bind_throw).
      cbn. eauto. }
  split; [done|]. split; [done|].
  intros p data. rewrite H2. apply with_output_folders_documents.
Qed.

(** ** The task list *)

(** [`- [ ] ${task}`] for every task, up to the first one that has no
    string. *)
Lemma checkbox_texts (items : list json) :
  map_result (fun x => result_map checkbox (to_string (Some x))) items
  = result_map (map checkbox) (task_texts items).
Proof.
  unfold task_texts. induction items as [|x items IH]; [done|].
  cbn [map_result]. rewrite IH. destruct (to_string (Some x)) as [t|e]; [|done].
  cbn [result_map]. by destruct (map_result (fun task => to_string (Some task)) items).
Qed.





(** *** Lines and checkboxes *)










(** ** The candidate payload *)

Lemma starts_fence_second (x c : N) (r : jstring) :
  c <> BACKTICK -> startsWith (x :: c :: r) FENCE = false.
Proof.
  intros Hc. unfold startsWith, FENCE. cbn [strip_prefix].
  destruct (BACKTICK =? x); [|done].
  destruct (N.eqb_spec BACKTICK c); [by subst|done].
Qed.

Lemma starts_fence_third (x y c : N) (r : jstring) :
  c <> BACKTICK -> startsWith (x :: y :: c :: r) FENCE = false.
Proof.
  intros Hc. apply N.eqb_neq in Hc. rewrite starts_fence_3, Hc.
  by rewrite andb_false_r.
Qed.

Lemma includes_app_sep (a b : jstring) (c : N) :
  c <> BACKTICK ->
  includes a FENCE = false -> includes (c :: b) FENCE = false ->
  includes (a ++ c :: b) FENCE = false.
Proof.
  intros Hc Ha Hb.
  induction a as [|x a IH]; [done|].
  rewrite includes_cons in Ha. apply orb_false_iff in Ha as [Ha1 Ha2].
  cbn [app]. rewrite includes_cons, (IH Ha2), orb_false_r.
  destruct a as [|y [|z a]]; cbn [app] in *.
  - by apply starts_fence_second.
  - by apply starts_fence_third.
  - by rewrite starts_fence_3 in *.
Qed.

Lemma cleanedContent_unfenced (text : jstring) :
  includes text FENCE = false -> cleanedContent text = text.
Proof. intros H. unfold cleanedContent. by rewrite codeBlockMatch_none. Qed.

Lemma cleanedContent_fenced (pre : jstring) (tagged : bool) (inner post : jstring) :
  includes (pre ++ [BACKTICK; BACKTICK]) FENCE = false ->
  includes (inner ++ [BACKTICK; BACKTICK]) FENCE = false ->
  (tagged = false -> startsWith inner (js "json") = false) ->
  cleanedContent
    (pre ++ FENCE ++ (if tagged then js "json" else []) ++ inner ++ FENCE ++ post)
  = trim inner.
Proof.
  intros. unfold cleanedContent. rewrite codeBlockMatch_fenced by done.
  apply trim_trim_start.
Qed.

(** The text of an object starts with a brace and ends with one. *)
Lemma stringify_object (members : list (jstring * json)) :
  exists mid, JSON_stringify (JObj members) = 123 :: mid ++ [125].
Proof. cbn [JSON_stringify]. by eexists. Qed.

Lemma cleanedContent_fenced_object (tagged : bool) (members : list (jstring * json)) :
  includes (JSON_stringify (JObj members)) FENCE = false ->
  cleanedContent (fenced tagged (JSON_stringify (JObj members)))
  = JSON_stringify (JObj members).
Proof.
  intros Hf. destruct (stringify_object members) as [mid Hs].
  unfold fenced.
  pose proof (cleanedContent_fenced [] tagged
                ([LF] ++ JSON_stringify (JObj members) ++ [LF]) []) as H.
  rewrite app_nil_r in H. cbn [app] in H. rewrite <- !app_assoc in H.
  cbn [app] in *. rewrite H.
  - rewrite Hs. cbn [app]. rewrite <- app_assoc.
    apply (trim_padded [LF] [LF] mid 123 125); reflexivity.
  - reflexivity.
  - rewrite includes_cons. apply orb_false_iff. split.
    + rewrite Hs. reflexivity.
    + apply includes_app_sep; [done|done|reflexivity].
  - intros _. reflexivity.
Qed.

Lemma number_free_extraction (V : StructuredExtraction) :
  number_free (extraction_value V) = true.
Proof.
  assert (forall l, forallb number_free (map note_value l) = true) as Hn
    by (induction l as [|n l IH]; [done | exact IH]).
  assert (forall l, forallb number_free (map JStr l) = true) as Ht
    by (induction l as [|n l IH]; [done | exact IH]).
  unfold extraction_value. cbn [number_free forallb snd]. by rewrite Hn, Ht.
Qed.

(** Any object without numbers, in whatever order its members are, comes
    back from its text in a fenced block when the text has no triple
    backtick. *)
Lemma fenced_object_roundtrip (E : environment) (members : list (jstring * json))
    (tagged : bool) (w : world) :
  number_free (JObj members) = true ->
  includes (JSON_stringify (JObj members)) FENCE = false ->
  extractPayload E (Some (JStr (fenced tagged (JSON_stringify (JObj members))))) w
  = (Ok (JObj members), w).
Proof.
  intros Hnf Hf. unfold extractPayload.
  rewrite cleanedContent_fenced_object by done.
  by rewrite JSON_parse_stringify.
Qed.

(** C3 (amended). When the text of an extraction has no triple backtick,
    the extractor gives the extraction back from that text wrapped in a
    fenced code block, tagged [json] or not. *)
Theorem fenced_stringify_roundtrip (E : environment) (V : StructuredExtraction)
    (tagged : bool) (w : world) :
  includes (JSON_stringify (extraction_value V)) FENCE = false ->
  extractPayload E (Some (JStr (fenced tagged (JSON_stringify (extraction_value V))))) w
  = (Ok (extraction_value V), w).
Proof.
  intros Hf. apply fenced_object_roundtrip; [|done].
  apply number_free_extraction.
Qed.

(** ** Extraction *)

Lemma extractPayload_unparseable (E : environment) (text : jstring) (w : world) :
  JSON_parse (cleanedContent text) = None ->
  extractPayload E (Some (JStr text)) w
  = (Throw (malformed_payload E (cleanedContent text)),
     logged [LogText PARSE_FAILURE_LABEL; LogText (cleanedContent text)] w).
Proof. intros H. unfold extractPayload. rewrite H. reflexivity. Qed.

Lemma extractPayload_parseable (E : environment) (text : jstring) (v : json) (w : world) :
  JSON_parse (cleanedContent text) = Some v ->
  extractPayload E (Some (JStr text)) w = (Ok v, w).
Proof. intros H. unfold extractPayload. rewrite H. reflexivity. Qed.


Lemma cleanedContent_stringify (v : json) :
  includes (JSON_stringify v) FENCE = false ->
  cleanedContent (JSON_stringify v) = JSON_stringify v.
Proof. apply cleanedContent_unfenced. Qed.

(** C6 (amended). Extraction returns a value exactly when the candidate
    payload parses as JSON, and the value is the parsed one, whatever its
    shape: any JSON value whose text has no triple backtick is accepted as
    it is (shown here for values without numbers). *)
Theorem extraction_checks_syntax_only (E : environment) (text : jstring)
    (parsed v : json) (w : world) :
  number_free v = true ->
  includes (JSON_stringify v) FENCE = false ->
  (fst (extractPayload E (Some (JStr text)) w) = Ok parsed
   <-> JSON_parse (cleanedContent text) = Some parsed)
  /\ extractPayload E (Some (JStr (JSON_stringify v))) w = (Ok v, w).
Proof.
  intros Hnf Hf. split.
  - destruct (JSON_parse (cleanedContent text)) as [x|] eqn:Hp.
    + rewrite (extractPayload_parseable E text x w Hp). cbn. split; congruence.
    + rewrite (extractPayload_unparseable E text w Hp). cbn. split; congruence.
  - apply extractPayload_parseable.
    rewrite cleanedContent_stringify by done. by apply JSON_parse_stringify.
Qed.

(** ** Absent fields *)

Lemma writeNotes_absent (structuredData : json) (w : world) :
  get_prop (Some structuredData) (js "notes") = Ok undefined ->
  writeNotes structuredData w = (Throw TypeError, w).
Proof. intros H. unfold writeNotes, bind, lift. by rewrite H. Qed.

Lemma taskLines_absent (structuredData : json) (w : world) :
  get_prop (Some structuredData) (js "tasks") = Ok undefined ->
  taskLines structuredData w = (Throw TypeError, w).
Proof. intros H. unfold taskLines, bind, lift. by rewrite H. Qed.

Lemma appendTasks_absent (structuredData : json) (w : world) :
  get_prop (Some structuredData) (js "tasks") = Ok undefined ->
  appendTasks structuredData w = (Throw TypeError, w).
Proof.
  intros H. unfold appendTasks, bind at 1, getAbstractFileByPath.
  destruct (vault w !! TASKS_PATH) as [[old|]|] eqn:Hv.
  - unfold bind at 1, vault_read. rewrite Hv.
    unfold bind. by rewrite taskLines_absent.
  - unfold bind. by rewrite taskLines_absent.
  - unfold bind. by rewrite taskLines_absent.
Qed.

(** C7 (amended). A payload whose [notes] is [undefined] makes the artifact
    writer throw a TypeError once the summary is written, before any note
    or task; a payload whose [tasks] is [undefined] makes it throw a
    TypeError once the summary and the notes are written, and the task list
    is not touched. *)
Theorem absent_field_throws (filename : jstring) (structuredData : json) (w : world) :
  (get_prop (Some structuredData) (js "notes") = Ok undefined ->
   writeNotes structuredData w = (Throw TypeError, w)
   /\ writeArtifacts filename structuredData w
      = then_type_error (writeSummary filename structuredData) w)
  /\ (get_prop (Some structuredData) (js "tasks") = Ok undefined ->
      appendTasks structuredData w = (Throw TypeError, w)
      /\ writeArtifacts filename structuredData w
         = then_type_error (writeSummary filename structuredData ;;;
                            writeNotes structuredData) w).
Proof.
  split; intros H.
  - split; [by apply writeNotes_absent|].
    unfold writeArtifacts, then_type_error, bind at 1.
    destruct (writeSummary filename structuredData w) as [[[]|e] w1]; [|done].
    unfold bind. by rewrite writeNotes_absent.
  - split; [by apply appendTasks_absent|].
    unfold writeArtifacts, then_type_error, bind at 1 3.
    destruct (writeSummary filename structuredData w) as [[[]|e] w1]; [|done].
    unfold bind.
    destruct (writeNotes structuredData w1) as [[[]|e] w2]; [|done].
    by rewrite appendTasks_absent.
Qed.

(** ** The two triggers *)

Lemma parseAndOutput_notices (E : environment) (this : plugin)
    (filename content : jstring) (w : world) :
  apiKey (settings this) <> [] ->
  notices (snd (parseAndOutput E this filename content w)) = notices w.
Proof.
  intros Hk. rewrite parseAndOutput_with_key by done.
  assert (preserves notices
    (try_catch
      (messageContent <~ requestCompletion E this (prompt_of content) ;;
       structuredData <~ extractPayload E messageContent ;;
       writeArtifacts filename structuredData)
      (fun error =>
         console_error [LogText (js "Error calling OpenAI API:"); LogError error] ;;;
         throw error))) as H.
  { repeat first [apply requestCompletion_notices | apply extractPayload_notices
                 | apply writeArtifacts_notices | preserves_step]. }
  by rewrite H.
Qed.

(** C8 (amended). The listener of the watched folder and the command run
    the same [parseAndOutput] on the base name and the content of the file.
    With an API key set, the command on a markdown file shows exactly one
    notice: the success notice when the pipeline returns, the generic
    failure notice when it throws. *)
Theorem triggers_share_entry_point (E : environment) (this : plugin)
    (file : TFile) (content : jstring) (w : world) :
  vault w !! path file = Some (File content) ->
  let run := parseAndOutput E this (basename file) content w in
  (startsWith (path file) WATCHED_FOLDER = true ->
   watchFolder E this WATCHED_FOLDER file w = run)
  /\ (extension file = js "md" ->
      parseTranscriptCommand E this (Some file) w
      = match run with
        | (Ok _, w') => Notice (SUCCESS_NOTICE file) w'
        | (Throw error, w') =>
            (console_error [LogText (js "Failed to parse transcript:"); LogError error] ;;;
             Notice FAILURE_NOTICE) w'
        end)
  /\ (extension file = js "md" -> apiKey (settings this) <> [] ->
      notices (snd (parseTranscriptCommand E this (Some file) w))
      = notices w ++ [match fst run with
                      | Ok _ => SUCCESS_NOTICE file
                      | Throw _ => FAILURE_NOTICE
                      end]).
Proof.
  intros Hv run.
  assert (vault_read (path file) w = (Ok content, w)) as Hr
    by (unfold vault_read; by rewrite Hv).
  assert (extension file = js "md" ->
    parseTranscriptCommand E this (Some file) w
     = match run with
       | (Ok _, w') => Notice (SUCCESS_NOTICE file) w'
       | (Throw error, w') =>
           (console_error [LogText (js "Failed to parse transcript:"); LogError error] ;;;
            Notice FAILURE_NOTICE) w'
       end) as Hc.
  { intros He. unfold parseTranscriptCommand. rewrite decide_True by done.
    unfold try_catch. erewrite bind_ok by done.
    unfold bind at 1. subst run.
    by destruct (parseAndOutput E this (basename file) content w) as [[[]|e] w']. }
  split; [|split; [done|]].
  - intros Hs. unfold watchFolder. rewrite Hs. by erewrite bind_ok.
  - intros He Hk. rewrite Hc by done.
    pose proof (parseAndOutput_notices E this (basename file) content w Hk) as Hn.
    subst run.
    destruct (parseAndOutput E this (basename file) content w) as [[[]|e] w'];
      cbn in *; by rewrite Hn.
Qed.

(** ** The claims on concrete inputs *)

(** The end-to-end scenario of the specification: the stubbed reply gives
    a summary document, a note called Groceries and a task list with the
    line of the task. *)
Example end_to_end_scenario :
  let outcome :=
    watchFolder (replying scenario_reply) sample_plugin WATCHED_FOLDER transcript_file
      world_with_transcript in
  fst outcome = Ok tt
  /\ vault (snd outcome) !! js "Parsed_Notes/summaries/meeting_summary.md"
     = Some (File (js "Meeting notes here."))
  /\ vault (snd outcome) !! js "Parsed_Notes/notes/Groceries.md"
     = Some (File (js "buy milk"))
  /\ vault (snd outcome) !! TASKS_PATH = Some (File (js "- [ ] call dentist")).
Proof. vm_compute. repeat split. Qed.

Example scenario_reply_is_stringify :
  JSON_stringify (extraction_value scenario) = scenario_reply.
Proof. vm_compute. reflexivity. Qed.



(** C2, witness: the service cannot be reached. *)
Lemma completion_failure_writes_no_document_witness :
  vault (snd (parseAndOutput offline sample_plugin (js "meeting") scenario_transcript
                world_with_transcript))
  = with_output_folders (vault world_with_transcript).
Proof.
  apply (completion_failure_writes_no_document offline sample_plugin (js "meeting")
           scenario_transcript world_with_transcript).
  right. eexists. vm_compute. reflexivity.
Defined.

(** C2, counterexample: the service cannot be reached, the pipeline throws,
    and the folder [Parsed_Notes], which was not there, has been created. *)
Lemma failed_call_still_creates_folders :
  fst (requestCompletion offline sample_plugin (prompt_of scenario_transcript)
         (set_vault (with_output_folders (vault empty_world)) empty_world))
  = Throw (HostError (js "Failed to fetch"))
  /\ fst (parseAndOutput offline sample_plugin (js "meeting") scenario_transcript empty_world)
     = Throw (HostError (js "Failed to fetch"))
  /\ vault empty_world !! js "Parsed_Notes" = None
  /\ vault (snd (parseAndOutput offline sample_plugin (js "meeting") scenario_transcript
                   empty_world)) !! js "Parsed_Notes" = Some Folder.
Proof. vm_compute. repeat split. Qed.

(** C3, witness: the extraction of the scenario in a block tagged json. *)
Lemma fenced_stringify_roundtrip_witness :
  extractPayload (replying [])
    (Some (JStr (fenced true (JSON_stringify (extraction_value scenario))))) empty_world
  = (Ok (extraction_value scenario), empty_world).
Proof.
  apply (fenced_stringify_roundtrip (replying []) scenario true empty_world).
  vm_compute. reflexivity.
Defined.

(** C3, counterexample: with a summary that is a triple backtick the
    capture stops inside the JSON text and extraction throws. *)
Lemma backtick_summary_does_not_come_back :
  cleanedContent (fenced true (JSON_stringify (extraction_value backtick_summary)))
  = dq "{'summary':'"
  /\ fst (extractPayload (replying [])
            (Some (JStr (fenced true (JSON_stringify (extraction_value backtick_summary)))))
            empty_world)
     = Throw (malformed_payload (replying []) (dq "{'summary':'")).
Proof. vm_compute. repeat split. Qed.



(** C6, witness: the empty object is accepted as it is. *)
Lemma extraction_checks_syntax_only_witness :
  extractPayload (replying []) (Some (JStr (JSON_stringify (JObj [])))) empty_world
  = (Ok (JObj []), empty_world).
Proof.
  apply (extraction_checks_syntax_only (replying []) REFUSAL JNull (JObj []) empty_world).
  - reflexivity.
  - vm_compute. reflexivity.
Defined.

(** C6, counterexample: a payload without [tasks] is extracted, and the
    pipeline then writes the summary and the note before it throws. *)
Lemma payload_without_tasks_is_extracted :
  fst (extractPayload (replying reply_without_tasks) (Some (JStr reply_without_tasks))
         empty_world)
  = Ok (JObj [ (js "summary", JStr (js "s"));
               (js "notes", JArr [ note_value (MkNote (js "t") (js "c")) ]) ])
  /\ fst (parseAndOutput (replying reply_without_tasks) sample_plugin (js "meeting")
            scenario_transcript empty_world) = Throw TypeError
  /\ vault (snd (parseAndOutput (replying reply_without_tasks) sample_plugin (js "meeting")
                   scenario_transcript empty_world))
       !! js "Parsed_Notes/summaries/meeting_summary.md" = Some (File (js "s"))
  /\ vault (snd (parseAndOutput (replying reply_without_tasks) sample_plugin (js "meeting")
                   scenario_transcript empty_world))
       !! js "Parsed_Notes/notes/t.md" = Some (File (js "c")).
Proof. vm_compute. repeat split. Qed.

(** C7, witness: a payload with a summary only. *)
Lemma absent_field_throws_witness :
  writeNotes (JObj [ (js "summary", JStr (js "s")) ]) empty_world
  = (Throw TypeError, empty_world)
  /\ appendTasks (JObj [ (js "summary", JStr (js "s")) ]) empty_world
     = (Throw TypeError, empty_world).
Proof.
  destruct (absent_field_throws (js "meeting") (JObj [ (js "summary", JStr (js "s")) ])
              empty_world) as [H1 H2].
  split.
  - apply H1. reflexivity.
  - apply H2. reflexivity.
Defined.

(** C7, counterexample: without [notes] the artifact writer throws a
    TypeError instead of going on to the tasks, which are not written. *)
Lemma absent_notes_stop_the_writer :
  own_property (js "notes") [ (js "summary", JStr (js "s"));
                              (js "tasks", JArr [JStr (js "t")]) ] = undefined
  /\ fst (writeArtifacts (js "meeting") payload_without_notes empty_world)
     = Throw TypeError
  /\ vault (snd (writeArtifacts (js "meeting") payload_without_notes empty_world))
       !! TASKS_PATH = None.
Proof. vm_compute. repeat split. Qed.

(** C8, witness: the command on the transcript of the scenario. *)
Lemma triggers_share_entry_point_witness :
  notices (snd (parseTranscriptCommand (replying scenario_reply) sample_plugin
                  (Some transcript_file) world_with_transcript))
  = [SUCCESS_NOTICE transcript_file].
Proof.
  destruct (triggers_share_entry_point (replying scenario_reply) sample_plugin
              transcript_file scenario_transcript world_with_transcript
              ltac:(vm_compute; reflexivity)) as (_ & _ & H).
  rewrite H; [vm_compute; reflexivity | reflexivity | discriminate].
Defined.

(** C8, counterexample: without an API key the command shows two notices,
    the one about the key and the generic failure notice. *)
Lemma command_without_key_shows_two_notices :
  notices world_with_transcript = []
  /\ notices (snd (parseTranscriptCommand (replying scenario_reply) (loadSettings None)
                     (Some transcript_file) world_with_transcript))
     = [MISSING_KEY_NOTICE; FAILURE_NOTICE].
Proof. vm_compute. repeat split. Qed.

(** C9, witness: nothing was ever saved. *)
Lemma missing_credential_fails_before_network_witness :
  exists w',
    parseAndOutput (replying scenario_reply) (loadSettings None) (js "meeting")
      scenario_transcript world_with_transcript
    = (Throw (Error (js "OpenAI API key not set")), w')
    /\ network w' = network world_with_transcript
    /\ notices w' = notices world_with_transcript ++ [MISSING_KEY_NOTICE].
Proof.
  apply (missing_credential_fails_before_network (replying scenario_reply) None).
  left. reflexivity.
Defined.


(** * Further properties of the code *)

(** ** The output folders *)

Lemma ensure_folder_occupied (dir : jstring) (v : gmap jstring node) :
  is_Some (ensure_folder dir v !! dir).
Proof.
  unfold ensure_folder. destruct (v !! dir) eqn:Hd; [by rewrite Hd|].
  rewrite lookup_insert_eq. eauto.
Qed.

Lemma ensure_folder_keeps (dir : jstring) (v : gmap jstring node) (p : jstring) (x : node) :
  v !! p = Some x -> ensure_folder dir v !! p = Some x.
Proof.
  intros H. unfold ensure_folder. destruct (v !! dir) eqn:Hd; [done|].
  rewrite lookup_insert_ne; [done|]. intros ->. congruence.
Qed.

Lemma ensure_folder_noop (dir : jstring) (v : gmap jstring node) :
  is_Some (v !! dir) -> ensure_folder dir v = v.
Proof. intros [x Hx]. unfold ensure_folder. by rewrite Hx. Qed.

Lemma ensure_folder_other (dir : jstring) (v : gmap jstring node) (p : jstring) :
  p <> dir -> ensure_folder dir v !! p = v !! p.
Proof.
  intros H. unfold ensure_folder. destruct (v !! dir); [done|].
  by rewrite lookup_insert_ne.
Qed.

Lemma with_output_folders_keeps (v : gmap jstring node) (p : jstring) (x : node) :
  v !! p = Some x -> with_output_folders v !! p = Some x.
Proof. intros H. unfold with_output_folders. by do 3 apply ensure_folder_keeps. Qed.

Lemma with_output_folders_occupied (v : gmap jstring node) (dir : jstring) :
  dir ∈ OUTPUT_DIRS -> is_Some (with_output_folders v !! dir).
Proof.
  unfold OUTPUT_DIRS, with_output_folders. intros H.
  repeat (apply elem_of_cons in H as [->|H]).
  - destruct (ensure_folder_occupied (js "Parsed_Notes") v) as [x Hx].
    exists x. by do 2 apply ensure_folder_keeps.
  - destruct (ensure_folder_occupied SUMMARIES_DIR
                (ensure_folder (js "Parsed_Notes") v)) as [x Hx].
    exists x. by apply ensure_folder_keeps.
  - apply ensure_folder_occupied.
  - by apply elem_of_nil in H.
Qed.

Lemma with_output_folders_other (v : gmap jstring node) (p : jstring) :
  p ∉ OUTPUT_DIRS -> with_output_folders v !! p = v !! p.
Proof.
  unfold OUTPUT_DIRS, with_output_folders. intros H.
  rewrite !ensure_folder_other; [done|..]; intros ->; apply H; set_solver.
Qed.

Lemma with_output_folders_idempotent (v : gmap jstring node) :
  with_output_folders (with_output_folders v) = with_output_folders v.
Proof.
  pose proof (with_output_folders_occupied v) as Hocc.
  unfold with_output_folders at 1.
  rewrite (ensure_folder_noop (js "Parsed_Notes")) by (apply Hocc; set_solver).
  rewrite (ensure_folder_noop SUMMARIES_DIR) by (apply Hocc; set_solver).
  rewrite (ensure_folder_noop NOTES_DIR) by (apply Hocc; set_solver).
  reflexivity.
Qed.

(** X1. [ensureDirectoriesExist] never throws; it keeps every entry of the
    vault as it is, a file that sits at the path of a folder included;
    afterwards the three paths are taken; run again, it changes nothing. *)
Theorem ensureDirectoriesExist_idempotent (w : world) :
  let w1 := snd (ensureDirectoriesExist w) in
  ensureDirectoriesExist w = (Ok tt, w1)
  /\ ensureDirectoriesExist w1 = (Ok tt, w1)
  /\ (forall p x, vault w !! p = Some x -> vault w1 !! p = Some x)
  /\ (forall dir, dir ∈ OUTPUT_DIRS -> is_Some (vault w1 !! dir))
  /\ (forall p, p ∉ OUTPUT_DIRS -> vault w1 !! p = vault w !! p)
  /\ notices w1 = notices w /\ console w1 = console w /\ network w1 = network w.
Proof.
  cbn zeta. rewrite !ensureDirectoriesExist_run. cbn [snd].
  split; [done|]. split.
  - cbn [vault set_vault]. by rewrite with_output_folders_idempotent.
  - cbn. split; [apply with_output_folders_keeps|].
    split; [apply with_output_folders_occupied|].
    split; [apply with_output_folders_other|done].
Qed.

(** ** The listener of the watched folder *)

Lemma strip_prefix_Some (p s r : jstring) :
  strip_prefix p s = Some r <-> s = p ++ r.
Proof.
  split.
  - revert s. induction p as [|a p IH]; intros s H; cbn in H.
    + by inversion H.
    + destruct s as [|b s]; [done|].
      destruct (N.eqb_spec a b) as [->|]; [|done].
      cbn. f_equal. by apply IH.
  - intros ->. apply strip_prefix_app.
Qed.

Lemma startsWith_true (s p : jstring) :
  startsWith s p = true <-> exists r, s = p ++ r.
Proof.
  unfold startsWith. destruct (strip_prefix p s) as [r|] eqn:H.
  - apply strip_prefix_Some in H. split; eauto.
  - split; [done|]. intros [r Hr]. apply strip_prefix_Some in Hr. congruence.
Qed.

(** X3. The listener runs the pipeline on every created file whose path
    begins with the characters of the folder name, whatever follows them,
    a path in a sibling folder with a longer name included; on any other
    file it does nothing at all. *)
Theorem watchFolder_matches_by_prefix (E : environment) (this : plugin)
    (folderPath : jstring) (file : TFile) (w : world) :
  (forall rest, path file = folderPath ++ rest ->
     watchFolder E this folderPath file w
     = (content <~ vault_read (path file) ;;
        parseAndOutput E this (basename file) content) w)
  /\ ((forall rest, path file <> folderPath ++ rest) ->
      watchFolder E this folderPath file w = (Ok tt, w)).
Proof.
  unfold watchFolder. split.
  - intros rest H. rewrite (proj2 (startsWith_true _ _)) by eauto. reflexivity.
  - intros H. destruct (startsWith (path file) folderPath) eqn:Hs; [|done].
    apply startsWith_true in Hs as [r Hr]. by apply H in Hr.
Qed.

(** ** What a computation touches *)

Lemma vault_only_ret {A} (a : A) : vault_only (ret a).
Proof. intros w. exists (vault w). by destruct w. Qed.

Lemma vault_only_throw {A} (e : js_error) : vault_only (@throw A e).
Proof. intros w. exists (vault w). by destruct w. Qed.

Lemma vault_only_lift {A} (r : result A) : vault_only (lift r).
Proof. intros w. exists (vault w). by destruct w. Qed.

Lemma vault_only_bind {A B} (m : M A) (k : A -> M B) :
  vault_only m -> (forall a, vault_only (k a)) -> vault_only (bind m k).
Proof.
  intros Hm Hk w. unfold bind. destruct (Hm w) as [v Hv].
  destruct (m w) as [[a|e] w']; cbn in *; subst; [|by eexists].
  destruct (Hk a (set_vault v w)) as [v' Hv']. exists v'. by rewrite Hv'.
Qed.

Lemma vault_only_for_each {A} (xs : list A) (f : A -> M unit) :
  (forall x, vault_only (f x)) -> vault_only (for_each xs f).
Proof.
  intros Hf. induction xs as [|x xs IH]; cbn [for_each].
  - apply vault_only_ret.
  - apply vault_only_bind; auto.
Qed.

Lemma vault_only_create (p : jstring) (d : value) : vault_only (vault_create p d).
Proof.
  intros w. unfold vault_create.
  destruct (vault w !! p); [exists (vault w); by destruct w|].
  destruct d as [[]|]; cbn; try (exists (vault w); by destruct w). by eexists.
Qed.

Lemma vault_only_modify (p d : jstring) : vault_only (vault_modify p d).
Proof.
  intros w. unfold vault_modify.
  destruct (vault w !! p) as [[]|]; cbn; try (exists (vault w); by destruct w).
  by eexists.
Qed.

Lemma vault_only_read (p : jstring) : vault_only (vault_read p).
Proof.
  intros w. unfold vault_read.
  destruct (vault w !! p) as [[]|]; exists (vault w); by destruct w.
Qed.

Lemma vault_only_lookup (p : jstring) : vault_only (getAbstractFileByPath p).
Proof. intros w. exists (vault w). by destruct w. Qed.

Lemma vault_only_preserves {A X} (c : world -> X) (m : M A) :
  (forall v w, c (set_vault v w) = c w) -> vault_only m -> preserves c m.
Proof. intros Hc Hm w. destruct (Hm w) as [v ->]. apply Hc. Qed.

Ltac vault_only_step :=
  match goal with
  | |- vault_only (bind _ _) => apply vault_only_bind; [|intros]
  | |- vault_only (for_each _ _) => apply vault_only_for_each; intros
  | |- vault_only (match ?x with _ => _ end) => destruct x
  | |- vault_only _ =>
      first [ apply vault_only_ret | apply vault_only_throw | apply vault_only_lift
            | apply vault_only_create | apply vault_only_modify
            | apply vault_only_read | apply vault_only_lookup ]
  end.

Lemma writeArtifacts_vault_only (filename : jstring) (d : json) :
  vault_only (writeArtifacts filename d).
Proof.
  unfold writeArtifacts, writeSummary, writeNotes, appendTasks, taskLines.
  repeat vault_only_step.
Qed.

Lemma requestCompletion_network (E : environment) (this : plugin) (prompt : jstring)
    (w : world) :
  network (snd (requestCompletion E this prompt w))
  = network w ++ [completion_request (apiKey (settings this)) prompt].
Proof.
  unfold requestCompletion.
  set (k := fun response : http_response => _).
  assert (forall r, preserves network (k r)) as Hk.
  { intros r. subst k. cbv beta.
    repeat first [ apply response_json_preserves | apply preserves_lift
                 | apply preserves_throw | apply preserves_ret | preserves_step ]. }
  unfold bind, fetch.
  destruct (service E _) as [e|r]; [done|]. cbn. by rewrite Hk.
Qed.

Lemma requestCompletion_console (E : environment) (this : plugin) (prompt : jstring) :
  preserves console (requestCompletion E this prompt).
Proof.
  unfold requestCompletion.
  apply preserves_bind.
  - intros w. unfold fetch. by destruct (service E _).
  - intros r.
    repeat first [ apply response_json_preserves | apply preserves_lift
                 | apply preserves_throw | apply preserves_ret | preserves_step ].
Qed.

Lemma extractPayload_network (E : environment) (m : value) :
  preserves network (extractPayload E m).
Proof.
  unfold extractPayload.
  destruct m as [[]|]; try apply preserves_throw.
  destruct (JSON_parse _); [apply preserves_ret|]. by intros w.
Qed.

(** The stages after the call of the completion service. *)
Lemma after_completion_network (E : environment) (filename : jstring) (m : value) :
  preserves network
    (structuredData <~ extractPayload E m ;; writeArtifacts filename structuredData).
Proof.
  apply preserves_bind; [apply extractPayload_network|]. intros d.
  apply vault_only_preserves; [done|]. apply writeArtifacts_vault_only.
Qed.

(** X5. With an API key, every invocation of the pipeline sends exactly one
    request, whether it then succeeds or fails at any stage: there is no
    retry and no second call. *)
Theorem one_request_per_invocation (E : environment) (this : plugin)
    (filename content : jstring) (w : world) :
  apiKey (settings this) <> [] ->
  network (snd (parseAndOutput E this filename content w))
  = network w ++ [completion_request (apiKey (settings this)) (prompt_of content)].
Proof.
  intros Hk. rewrite parseAndOutput_with_key by done.
  set (w1 := set_vault (with_output_folders (vault w)) w).
  pose proof (requestCompletion_network E this (prompt_of content) w1) as Hn.
  unfold try_catch, bind at 1.
  destruct (requestCompletion E this (prompt_of content) w1) as [[m|e] w2]; cbn in Hn.
  - pose proof (after_completion_network E filename m w2) as Hr.
    destruct ((structuredData <~ extractPayload E m ;;
               writeArtifacts filename structuredData) w2) as [[[]|e] w3];
      cbn in *; by rewrite Hr, Hn.
  - cbn. by rewrite Hn.
Qed.

(** ** The command *)

Lemma parseAndOutput_new_notices (E : environment) (this : plugin)
    (filename content : jstring) (w : world) :
  notices (snd (parseAndOutput E this filename content w))
  = notices w ++ match apiKey (settings this) with
                 | [] => [MISSING_KEY_NOTICE]
                 | _ :: _ => []
                 end.
Proof.
  destruct (apiKey (settings this)) eqn:Hk.
  - by rewrite parseAndOutput_no_key.
  - rewrite parseAndOutput_notices by (rewrite Hk; done). by rewrite app_nil_r.
Qed.

Lemma parseAndOutput_no_key_throws (E : environment) (this : plugin)
    (filename content : jstring) (w : world) :
  apiKey (settings this) = [] ->
  exists e, fst (parseAndOutput E this filename content w) = Throw e.
Proof. intros Hk. rewrite parseAndOutput_no_key by done. by eexists. Qed.

Lemma try_catch_returns {A} (m : M A) (h : js_error -> M A) (w w' : world) (a : A) :
  m w = (Ok a, w') -> try_catch m h w = (Ok a, w').
Proof. intros H. unfold try_catch. by rewrite H. Qed.

(** X4. The callback of the command never throws, whatever happens in the
    pipeline, and it shows one notice, or two: two exactly when the active
    file is a readable markdown file and no API key is set.  Without an
    active markdown file it shows the notice to open one and does nothing
    else. *)
Theorem command_never_throws (E : environment) (this : plugin)
    (activeFile : option TFile) (w : world) :
  let outcome := parseTranscriptCommand E this activeFile w in
  fst outcome = Ok tt
  /\ (exists shown, notices (snd outcome) = notices w ++ shown
        /\ (length shown = 1%nat \/ length shown = 2%nat)
        /\ (length shown = 2%nat <->
            exists file content,
              activeFile = Some file /\ extension file = js "md"
              /\ vault w !! path file = Some (File content)
              /\ apiKey (settings this) = []))
  /\ ((forall file, activeFile = Some file -> extension file <> js "md") ->
      outcome = Notice OPEN_FILE_NOTICE w).
Proof.
  cbn zeta. unfold parseTranscriptCommand.
  destruct activeFile as [file|].
  2:{ split; [done|]. split; [|done]. exists [OPEN_FILE_NOTICE].
      split; [done|]. split; [by left|]. split; [done|].
      by intros (f & c & H & _). }
  destruct (decide (extension file = js "md")) as [He|He].
  2:{ split; [done|]. split; [|done]. exists [OPEN_FILE_NOTICE].
      split; [done|]. split; [by left|]. split; [done|].
      intros (f & c & H & H' & _). by inversion H; subst. }
  set (handler := fun error : js_error => _).
  assert (forall e w', handler e w'
            = (Ok tt, World (vault w') (notices w' ++ [FAILURE_NOTICE])
                        (console w' ++ [[LogText (js "Failed to parse transcript:");
                                         LogError e]]) (network w'))) as Hh by done.
  destruct (vault w !! path file) as [[content|]|] eqn:Hv.
  - assert (vault_read (path file) w = (Ok content, w)) as Hr
      by (unfold vault_read; by rewrite Hv).
    pose proof (parseAndOutput_new_notices E this (basename file) content w) as Hn.
    destruct (parseAndOutput E this (basename file) content w) as [[[]|e] w'] eqn:Hp;
      cbn [snd] in Hn.
    + erewrite try_catch_returns;
        [|erewrite bind_ok by done; erewrite bind_ok by done; reflexivity].
      destruct (apiKey (settings this)) eqn:Hk.
      * destruct (parseAndOutput_no_key_throws E this (basename file) content w Hk)
          as [e He']. rewrite Hp in He'. done.
      * split; [done|]. split; [|intros H; by destruct (H file eq_refl)].
        exists [js "Successfully parsed transcript: " ++ basename file].
        cbn [snd notices]. rewrite Hn, app_nil_r. split; [done|]. split; [by left|].
        split; [done|]. intros (f & c & _ & _ & _ & H). done.
    + erewrite try_catch_throw;
        [|erewrite bind_ok by done; erewrite bind_throw by done; reflexivity].
      rewrite Hh. cbn [fst snd notices].
      split; [done|]. split; [|intros H; by destruct (H file eq_refl)].
      rewrite Hn. destruct (apiKey (settings this)) eqn:Hk.
      * exists [MISSING_KEY_NOTICE; FAILURE_NOTICE].
        rewrite <- app_assoc. split; [done|]. split; [by right|].
        split; [|done]. intros _. by exists file, content.
      * exists [FAILURE_NOTICE]. rewrite app_nil_r.
        split; [done|]. split; [by left|]. split; [done|].
        intros (f & c & _ & _ & _ & H). done.
  - assert (vault_read (path file) w = (Throw (HostError (js "File not found.")), w)) as Hr
      by (unfold vault_read; by rewrite Hv).
    erewrite try_catch_throw; [|erewrite bind_throw by done; reflexivity].
    rewrite Hh. cbn [fst snd notices].
    split; [done|]. split; [|intros H; by destruct (H file eq_refl)].
    exists [FAILURE_NOTICE]. split; [done|]. split; [by left|]. split; [done|].
    intros (f & c & H & _ & H' & _). inversion H; subst. congruence.
  - assert (vault_read (path file) w = (Throw (HostError (js "File not found.")), w)) as Hr
      by (unfold vault_read; by rewrite Hv).
    erewrite try_catch_throw; [|erewrite bind_throw by done; reflexivity].
    rewrite Hh. cbn [fst snd notices].
    split; [done|]. split; [|intros H; by destruct (H file eq_refl)].
    exists [FAILURE_NOTICE]. split; [done|]. split; [by left|]. split; [done|].
    intros (f & c & H & _ & H' & _). inversion H; subst. congruence.
Qed.

(** ** The console *)

Lemma extractPayload_console (E : environment) (m : value) (w : world) :
  match fst (extractPayload E m w) with
  | Ok _ => console (snd (extractPayload E m w)) = console w
  | Throw _ =>
      exists earlier,
        console (snd (extractPayload E m w)) = console w ++ earlier
        /\ (earlier = [] \/
            exists candidate,
              earlier = [[LogText PARSE_FAILURE_LABEL; LogText candidate]])
  end.
Proof.
  unfold extractPayload.
  destruct m as [[ | | | text | | ]|];
    try (cbn; exists []; rewrite app_nil_r; by auto).
  destruct (JSON_parse (cleanedContent text)); [done|].
  cbn. eexists. split; [reflexivity|]. right. by eexists.
Qed.

Lemma writeArtifacts_console (filename : jstring) (d : json) :
  preserves console (writeArtifacts filename d).
Proof. apply vault_only_preserves; [done|]. apply writeArtifacts_vault_only. Qed.

(** X19. With an API key, a run that returns writes nothing to the
    console; a run that throws ends the console with the entry
    [Error calling OpenAI API:] carrying the very error that is thrown,
    whatever stage it came from, preceded at most by the entry of a parse
    failure. *)
Theorem failures_are_logged_and_rethrown (E : environment) (this : plugin)
    (filename content : jstring) (w : world) :
  apiKey (settings this) <> [] ->
  let outcome := parseAndOutput E this filename content w in
  match fst outcome with
  | Ok _ => console (snd outcome) = console w
  | Throw e =>
      exists earlier,
        console (snd outcome)
        = console w ++ earlier ++ [[LogText API_ERROR_LABEL; LogError e]]
        /\ (earlier = [] \/
            exists candidate,
              earlier = [[LogText PARSE_FAILURE_LABEL; LogText candidate]])
  end.
Proof.
  intros Hk. cbn zeta. rewrite parseAndOutput_with_key by done.
  set (w1 := set_vault (with_output_folders (vault w)) w).
  pose proof (requestCompletion_console E this (prompt_of content) w1) as Hc.
  change (console w1) with (console w) in Hc.
  destruct (requestCompletion E this (prompt_of content) w1) as [[m|e] w2] eqn:Hrc;
    cbn [snd] in Hc.
  2:{ erewrite try_catch_throw by (by apply bind_throw). cbn.
      exists []. rewrite Hc. by auto. }
  pose proof (extractPayload_console E m w2) as Hx.
  destruct (extractPayload E m w2) as [[d|e] w3] eqn:Hex; cbn [fst snd] in Hx.
  2:{ erewrite try_catch_throw
        by (erewrite bind_ok by done; by apply bind_throw).
      cbn. destruct Hx as (earlier & Hx & Hcases). exists earlier.
      rewrite Hx, Hc, <- app_assoc. by auto. }
  pose proof (writeArtifacts_console filename d w3) as Hw.
  destruct (writeArtifacts filename d w3) as [[[]|e] w4] eqn:Hwa; cbn [snd] in Hw.
  - erewrite try_catch_returns
      by (erewrite bind_ok by done; erewrite bind_ok by done; done).
    cbn. by rewrite Hw, Hx, Hc.
  - erewrite try_catch_throw
      by (erewrite bind_ok by done; erewrite bind_ok by done; done).
    cbn. exists []. rewrite Hw, Hx, Hc. by auto.
Qed.

(** ** The vault only grows *)

Lemma ledger_extends_refl (v : gmap jstring node) : ledger_extends v v.
Proof.
  repeat split; auto. intros old H. exists []. by rewrite app_nil_r.
Qed.

Lemma ledger_extends_trans (v1 v2 v3 : gmap jstring node) :
  ledger_extends v1 v2 -> ledger_extends v2 v3 -> ledger_extends v1 v3.
Proof.
  intros (A1 & B1 & C1) (A2 & B2 & C2). repeat split; auto.
  intros old H. destruct (B1 old H) as [a1 H1]. destruct (B2 _ H1) as [a2 H2].
  exists (a1 ++ a2). by rewrite app_assoc.
Qed.

Lemma ledger_extends_insert_fresh (v : gmap jstring node) (p : jstring) (x : node) :
  v !! p = None -> ledger_extends v (<[p := x]> v).
Proof.
  intros Hp. repeat split.
  - intros q y _ Hq. rewrite lookup_insert_ne; [done|]. congruence.
  - intros old H. exists []. rewrite app_nil_r, lookup_insert_ne; [done|]. congruence.
  - intros H. rewrite lookup_insert_ne; [done|]. congruence.
Qed.

Lemma extends_ledger_preserves {A} (m : M A) : preserves vault m -> extends_ledger m.
Proof. intros H w. rewrite H. apply ledger_extends_refl. Qed.

Lemma extends_ledger_bind {A B} (m : M A) (k : A -> M B) :
  extends_ledger m -> (forall a, extends_ledger (k a)) -> extends_ledger (bind m k).
Proof.
  intros Hm Hk w. unfold bind. specialize (Hm w).
  destruct (m w) as [[a|e] w']; cbn in *; [|done].
  eapply ledger_extends_trans; [exact Hm | apply Hk].
Qed.

Lemma extends_ledger_try_catch {A} (m : M A) (h : js_error -> M A) :
  extends_ledger m -> (forall e, extends_ledger (h e)) -> extends_ledger (try_catch m h).
Proof.
  intros Hm Hh w. unfold try_catch. specialize (Hm w).
  destruct (m w) as [[a|e] w']; cbn in *; [done|].
  eapply ledger_extends_trans; [exact Hm | apply Hh].
Qed.

Lemma extends_ledger_for_each {A} (xs : list A) (f : A -> M unit) :
  (forall x, extends_ledger (f x)) -> extends_ledger (for_each xs f).
Proof.
  intros Hf. induction xs as [|x xs IH]; cbn [for_each].
  - apply extends_ledger_preserves, preserves_ret.
  - apply extends_ledger_bind; auto.
Qed.

Lemma extends_ledger_createFolder (p : jstring) : extends_ledger (createFolder p).
Proof.
  intros w. unfold createFolder. destruct (vault w !! p) eqn:Hp; cbn.
  - apply ledger_extends_refl.
  - by apply ledger_extends_insert_fresh.
Qed.

Lemma extends_ledger_create (p : jstring) (d : value) : extends_ledger (vault_create p d).
Proof.
  intros w. unfold vault_create. destruct (vault w !! p) eqn:Hp; cbn.
  - apply ledger_extends_refl.
  - destruct d as [[]|]; cbn; try apply ledger_extends_refl.
    by apply ledger_extends_insert_fresh.
Qed.

Lemma taskLines_pure (d : json) (w : world) : snd (taskLines d w) = w.
Proof.
  unfold taskLines, bind, lift.
  destruct (get_prop (Some d) (js "tasks")) as [tasks|]; [|done].
  by destruct (array_map _ tasks).
Qed.

Lemma extends_ledger_appendTasks (d : json) : extends_ledger (appendTasks d).
Proof.
  intros w. unfold appendTasks, bind at 1, getAbstractFileByPath.
  pose proof (taskLines_pure d w) as Hp.
  destruct (vault w !! TASKS_PATH) as [[old|]|] eqn:Hv.
  - unfold bind at 1, vault_read. rewrite Hv. unfold bind.
    destruct (taskLines d w) as [[lines|e] w']; cbn in Hp; subst w';
      [|apply ledger_extends_refl].
    unfold vault_modify. rewrite Hv. cbn. repeat split.
    + intros q y Hq H. by rewrite lookup_insert_ne.
    + intros old' H. rewrite Hv in H. inversion H; subst.
      rewrite lookup_insert_eq. by eexists.
    + intros H. congruence.
  - unfold bind.
    destruct (taskLines d w) as [[lines|e] w']; cbn in Hp; subst w';
      [|apply ledger_extends_refl].
    apply extends_ledger_create.
  - unfold bind.
    destruct (taskLines d w) as [[lines|e] w']; cbn in Hp; subst w';
      [|apply ledger_extends_refl].
    apply extends_ledger_create.
Qed.

Lemma extractPayload_keeps_vault (E : environment) (m : value) :
  preserves vault (extractPayload E m).
Proof.
  intros w. unfold extractPayload. destruct m as [[]|]; try done.
  by destruct (JSON_parse _).
Qed.

Ltac extends_step :=
  match goal with
  | |- extends_ledger (bind _ _) => apply extends_ledger_bind; [|intros]
  | |- extends_ledger (try_catch _ _) => apply extends_ledger_try_catch; [|intros]
  | |- extends_ledger (for_each _ _) => apply extends_ledger_for_each; intros
  | |- extends_ledger (appendTasks _) => apply extends_ledger_appendTasks
  | |- extends_ledger (vault_create _ _) => apply extends_ledger_create
  | |- extends_ledger (createFolder _) => apply extends_ledger_createFolder
  | |- extends_ledger (requestCompletion _ _ _) =>
      apply extends_ledger_preserves, requestCompletion_vault
  | |- extends_ledger (extractPayload _ _) =>
      apply extends_ledger_preserves, extractPayload_keeps_vault
  | |- extends_ledger (if ?b then _ else _) => destruct b
  | |- extends_ledger (match ?x with _ => _ end) => destruct x
  | |- extends_ledger _ =>
      apply extends_ledger_preserves;
      first [ apply preserves_ret | apply preserves_throw | apply preserves_lift
            | apply vault_read_preserves | apply console_error_vault
            | solve [intros ?; reflexivity] ]
  end.

Lemma extends_ledger_parseAndOutput (E : environment) (this : plugin)
    (filename content : jstring) :
  extends_ledger (parseAndOutput E this filename content).
Proof.
  unfold parseAndOutput, ensureDirectoriesExist, writeArtifacts, writeSummary,
    writeNotes.
  repeat extends_step.
Qed.

(** X16. Whatever the service answers and whatever the payload is, after a
    creation event or a run of the command every entry of the vault other
    than the task list is still there and unchanged, the transcript
    included, and a task list that existed has its old content as a
    prefix of the new one: nothing is removed, overwritten or truncated. *)
Theorem vault_only_grows (E : environment) (this : plugin) (ev : event) (w : world) :
  ledger_extends (vault w) (vault (snd (dispatch E this ev w))).
Proof.
  revert w. change (extends_ledger (dispatch E this ev)).
  destruct ev as [file|activeFile]; cbn [dispatch].
  - unfold watchFolder. destruct (startsWith _ _).
    + apply extends_ledger_bind; [repeat extends_step|].
      intros c. apply extends_ledger_parseAndOutput.
    + repeat extends_step.
  - unfold parseTranscriptCommand.
    destruct activeFile as [file|]; [|repeat extends_step].
    destruct (decide _); [|repeat extends_step].
    apply extends_ledger_try_catch; [|intros; repeat extends_step].
    apply extends_ledger_bind; [repeat extends_step|]. intros c.
    apply extends_ledger_bind; [apply extends_ledger_parseAndOutput|].
    intros; repeat extends_step.
Qed.

(** ** The request *)

(** One member of an object followed by a comma, read back. *)
Lemma parse_members_step (fuel : nat) (k : jstring) (v : json) (tail : jstring) :
  number_free v = true -> (json_size v <= fuel)%nat ->
  parse_members (S fuel) (quote k ++ js ":" ++ JSON_stringify v ++ 44 :: tail)
  = '(ms, rest) ← parse_members fuel tail; Some ((k, v) :: ms, rest).
Proof.
  intros Hnf Hfuel. rewrite parse_members_unfold.
  unfold quote. change (js ":") with [58]. cbn [app skip_ws].
  change (is_json_ws QUOTE) with false. cbv iota.
  change (QUOTE =? QUOTE) with true. cbv iota.
  rewrite <- app_assoc. cbn [app]. rewrite parse_quote_body.
  cbn [mbind option_bind skip_ws].
  change (is_json_ws 58) with false. change (58 =? 58) with true. cbv iota.
  rewrite (parse_value_roundtrip v Hnf fuel (44 :: tail) Hfuel).
  cbn [mbind option_bind skip_ws].
  change (is_json_ws 44) with false. change (44 =? 44) with true. cbv iota.
  reflexivity.
Qed.

Lemma parse_temperature (fuel : nat) (rest : jstring) :
  parse_members (S (S fuel)) (dq "'temperature':0.7}" ++ rest)
  = Some ([(js "temperature", JNum (js "0.7"))], rest).
Proof. reflexivity. Qed.

Lemma parse_object_open (fuel : nat) (k tail : jstring) :
  parse_value (S fuel) (123 :: quote k ++ tail)
  = '(ms, rest) ← parse_members fuel (quote k ++ tail); Some (JObj ms, rest).
Proof. reflexivity. Qed.

Lemma request_body_text (key prompt : jstring) :
  body (completion_request key prompt)
  = 123 :: quote (js "model") ++ js ":" ++ JSON_stringify (JStr (js "gpt-4-turbo"))
      ++ 44 :: quote (js "messages") ++ js ":"
      ++ JSON_stringify (JArr [ JObj [ (js "role", JStr (js "user"));
                                       (js "content", JStr prompt) ] ])
      ++ 44 :: dq "'temperature':0.7}" ++ [].
Proof.
  unfold completion_request. cbn [body JSON_stringify map fst snd].
  rewrite !join_cons_cons. cbn [join]. rewrite <- !app_assoc. reflexivity.
Qed.

Lemma request_body_parses (key prompt : jstring) :
  JSON_parse (body (completion_request key prompt))
  = Some (JObj [ (js "model", JStr (js "gpt-4-turbo"));
                 (js "messages",
                  JArr [ JObj [ (js "role", JStr (js "user"));
                                (js "content", JStr prompt) ] ]);
                 (js "temperature", JNum (js "0.7")) ]).
Proof.
  unfold JSON_parse.
  rewrite <- (parse_value_fuel_enough _ (20 + parse_fuel (body (completion_request key prompt))))
    by lia.
  generalize (parse_fuel (body (completion_request key prompt))). intros F.
  rewrite request_body_text.
  change (20 + F)%nat with (S (S (S (S (S (15 + F)))))).
  rewrite parse_object_open.
  rewrite (parse_members_step (S (S (S (15 + F)))) (js "model") (JStr (js "gpt-4-turbo")));
    [|reflexivity|change (json_size _) with 1%nat; lia].
  rewrite (parse_members_step (S (S (15 + F))) (js "messages")
             (JArr [ JObj [ (js "role", JStr (js "user")); (js "content", JStr prompt) ] ]));
    [|reflexivity|change (json_size _) with 7%nat; lia].
  rewrite parse_temperature. reflexivity.
Qed.

Lemma prompt_ends_with_transcript (content : jstring) :
  exists instructions, prompt_of content = instructions ++ content
    /\ forall other, prompt_of other = instructions ++ other.
Proof.
  unfold prompt_of. rewrite !join_cons_cons. cbn [join].
  eexists. split.
  - rewrite !app_assoc. reflexivity.
  - intros other. rewrite ?join_cons_cons. cbn [join]. by rewrite !app_assoc.
Qed.

(** X6. Whatever the API key and the transcript contain, quotation marks,
    line feeds and backticks included, the body of the request is a JSON
    text that parses to the model name, one user message and the
    temperature, and the content of the message is a fixed text of
    instructions followed by the transcript, character for character. *)
Theorem request_body_carries_transcript (key content : jstring) :
  JSON_parse (body (completion_request key (prompt_of content)))
  = Some (JObj [ (js "model", JStr (js "gpt-4-turbo"));
                 (js "messages",
                  JArr [ JObj [ (js "role", JStr (js "user"));
                                (js "content", JStr (prompt_of content)) ] ]);
                 (js "temperature", JNum (js "0.7")) ])
  /\ exists instructions,
       prompt_of content = instructions ++ content
       /\ forall other, prompt_of other = instructions ++ other.
Proof. split; [apply request_body_parses | apply prompt_ends_with_transcript]. Qed.

(** ** The answer of the service *)

Lemma fetch_responds (E : environment) (request : http_request) (r : http_response)
    (w : world) :
  service E request = Responds r ->
  fetch E request w
  = (Ok r, World (vault w) (notices w) (console w) (network w ++ [request])).
Proof. intros H. unfold fetch. by rewrite H. Qed.


Lemma chat_completion_parses (content : jstring) :
  JSON_parse (payload (chat_completion content))
  = Some (JObj [ (js "choices",
                  JArr [ JObj [ (js "message",
                                 JObj [ (js "role", JStr (js "assistant"));
                                        (js "content", JStr content) ]) ] ]) ]).
Proof. unfold chat_completion. cbn [payload]. by apply JSON_parse_stringify. Qed.

(** The path [choices[0].message.content] of a body. *)
Lemma requestCompletion_content (E : environment) (this : plugin) (prompt : jstring)
    (r : http_response) (members first message : list (jstring * json))
    (others : list json) (w : world) :
  service E (completion_request (apiKey (settings this)) prompt) = Responds r ->
  ok r = true ->
  JSON_parse (payload r) = Some (JObj members) ->
  own_property (js "choices") members = Some (JArr (JObj first :: others)) ->
  own_property (js "message") first = Some (JObj message) ->
  requestCompletion E this prompt w
  = (if truthy (own_property (js "content") message)
     then Ok (own_property (js "content") message)
     else Throw (Error (js "No response content received from OpenAI")),
     World (vault w) (notices w) (console w)
       (network w ++ [completion_request (apiKey (settings this)) prompt])).
Proof.
  intros Hs Hok Hp Hc Hm. unfold requestCompletion.
  erewrite bind_ok by (by apply fetch_responds).
  unfold bind at 1. rewrite Hok. cbn [negb].
  unfold ret at 1. unfold bind at 1, response_json. rewrite Hp. unfold ret at 1.
  unfold bind, lift. cbn [get_prop]. rewrite Hc. cbn [get_index0 head get_prop].
  rewrite Hm. cbn [get_prop].
  by destruct (truthy (own_property (js "content") message)).
Qed.

(** X8. From a successful answer whose body is a JSON object with a first
    choice that has a message, the call returns the [content] of that
    message, whatever other members the body has, when it is truthy; when
    it is missing, [null] or the empty string the call throws
    [No response content received from OpenAI]. *)
Theorem completion_content_is_decoded (E : environment) (this : plugin)
    (prompt : jstring) (r : http_response)
    (members first message : list (jstring * json)) (others : list json) (w : world) :
  service E (completion_request (apiKey (settings this)) prompt) = Responds r ->
  ok r = true ->
  JSON_parse (payload r) = Some (JObj members) ->
  own_property (js "choices") members = Some (JArr (JObj first :: others)) ->
  own_property (js "message") first = Some (JObj message) ->
  let content := own_property (js "content") message in
  fst (requestCompletion E this prompt w)
  = (if truthy content then Ok content
     else Throw (Error (js "No response content received from OpenAI")))
  /\ (content = None \/ content = Some JNull \/ content = Some (JStr []) ->
      truthy content = false)
  /\ (forall text, text <> [] -> content = Some (JStr text) -> truthy content = true).
Proof.
  intros Hs Hok Hp Hc Hm content. split.
  - by rewrite (requestCompletion_content E this prompt r members first message
                  others w Hs Hok Hp Hc Hm).
  - split.
    + by intros [->|[->| ->]].
    + intros text Hne ->. by destruct text.
Qed.

Lemma requestCompletion_replying (E : environment) (this : plugin)
    (prompt content : jstring) (w : world) :
  service E (completion_request (apiKey (settings this)) prompt)
  = Responds (chat_completion content) ->
  requestCompletion E this prompt w
  = (match content with
     | [] => Throw (Error (js "No response content received from OpenAI"))
     | _ :: _ => Ok (Some (JStr content))
     end,
     World (vault w) (notices w) (console w)
       (network w ++ [completion_request (apiKey (settings this)) prompt])).
Proof.
  intros Hs.
  rewrite (requestCompletion_content E this prompt (chat_completion content) _ _ _ _ w
             Hs eq_refl (chat_completion_parses content) eq_refl eq_refl).
  by destruct content.
Qed.

(** ** What a match of the regular expression is *)

Lemma starts_fence_restrict (a rest : jstring) :
  a <> [] ->
  startsWith (a ++ FENCE ++ rest) FENCE = false ->
  startsWith (a ++ [BACKTICK; BACKTICK]) FENCE = false.
Proof.
  destruct a as [|x [|y [|z a]]]; intros Hne H; try done.
  all: change (FENCE ++ rest) with (BACKTICK :: BACKTICK :: BACKTICK :: rest) in H;
    cbn [app] in *; rewrite starts_fence_3 in *; done.
Qed.

Lemma lazy_capture_sound (s g : jstring) :
  lazy_capture_then_fence s = Some g ->
  (exists rest, s = g ++ FENCE ++ rest)
  /\ includes (g ++ [BACKTICK; BACKTICK]) FENCE = false.
Proof.
  revert g. induction s as [|c s IH]; intros g H.
  - cbn in H. done.
  - cbn [lazy_capture_then_fence] in H.
    destruct (strip_prefix FENCE (c :: s)) as [r|] eqn:Hs.
    + inversion H; subst g. apply strip_prefix_Some in Hs. split; [by exists r|done].
    + destruct (lazy_capture_then_fence s) as [g'|] eqn:Hl; [|done].
      inversion H; subst g. destruct (IH g' eq_refl) as [[rest ->] Hg].
      split; [by exists rest|].
      change ((c :: g') ++ [BACKTICK; BACKTICK]) with (c :: (g' ++ [BACKTICK; BACKTICK])).
      rewrite includes_cons, Hg, orb_false_r.
      apply (starts_fence_restrict (c :: g') rest); [done|].
      unfold startsWith. cbn [app]. by rewrite Hs.
Qed.

Lemma spaces_then_sound (k : jstring -> option jstring) (s g : jstring) :
  spaces_then k s = Some g ->
  exists ws s', s = ws ++ s' /\ forallb is_space ws = true /\ k s' = Some g.
Proof.
  induction s as [|c s IH]; intros H.
  - exists [], []. done.
  - cbn [spaces_then] in H. destruct (is_space c) eqn:Hc.
    + destruct (spaces_then k s) as [g'|] eqn:Hs.
      * inversion H; subst g'. destruct (IH eq_refl) as (ws & s' & -> & Hws & Hk).
        exists (c :: ws), s'. cbn. by rewrite Hc.
      * exists [], (c :: s). done.
    + exists [], (c :: s). done.
Qed.

Lemma match_here_sound (s g : jstring) :
  match_here s = Some g ->
  exists (tagged : bool) ws post,
    s = FENCE ++ (if tagged then js "json" else []) ++ ws ++ g ++ FENCE ++ post
    /\ forallb is_space ws = true
    /\ includes (g ++ [BACKTICK; BACKTICK]) FENCE = false.
Proof.
  unfold match_here. destruct (strip_prefix FENCE s) as [r|] eqn:Hf; [|done].
  apply strip_prefix_Some in Hf. subst s. unfold optional_json_then.
  assert (forall t, spaces_then lazy_capture_then_fence t = Some g ->
            exists ws post, t = ws ++ g ++ FENCE ++ post
              /\ forallb is_space ws = true
              /\ includes (g ++ [BACKTICK; BACKTICK]) FENCE = false) as Hk.
  { intros t Ht. apply spaces_then_sound in Ht as (ws & s' & -> & Hws & Hl).
    apply lazy_capture_sound in Hl as [[post ->] Hg]. by exists ws, post. }
  destruct (strip_prefix (js "json") r) as [r'|] eqn:Hj.
  - apply strip_prefix_Some in Hj. subst r.
    destruct (spaces_then lazy_capture_then_fence r') as [g'|] eqn:Hs.
    + intros H; inversion H; subst g'.
      destruct (Hk _ Hs) as (ws & post & -> & Hws & Hg). by exists true, ws, post.
    + intros H. destruct (Hk _ H) as (ws & post & Heq & Hws & Hg).
      exists false, ws, post. cbn [app]. by rewrite Heq.
  - intros H. destruct (Hk _ H) as (ws & post & -> & Hws & Hg).
    by exists false, ws, post.
Qed.

Lemma codeBlockMatch_sound (text g : jstring) :
  codeBlockMatch text = Some g ->
  exists pre (tagged : bool) ws post,
    text = pre ++ FENCE ++ (if tagged then js "json" else []) ++ ws ++ g ++ FENCE ++ post
    /\ forallb is_space ws = true
    /\ includes (g ++ [BACKTICK; BACKTICK]) FENCE = false.
Proof.
  induction text as [|c text IH]; intros H.
  - cbn in H. done.
  - cbn [codeBlockMatch] in H. destruct (match_here (c :: text)) as [g'|] eqn:Hm.
    + inversion H; subst g'.
      apply match_here_sound in Hm as (tagged & ws & post & Heq & Hws & Hg).
      by exists [], tagged, ws, post.
    + destruct (IH H) as (pre & tagged & ws & post & -> & Hws & Hg).
      by exists (c :: pre), tagged, ws, post.
Qed.

(** *** Parts of a text without fence *)

Lemma strip_prefix_app_r (p s r t : jstring) :
  strip_prefix p s = Some r -> strip_prefix p (s ++ t) = Some (r ++ t).
Proof.
  intros H. apply strip_prefix_Some in H. subst s.
  rewrite <- app_assoc. apply strip_prefix_app.
Qed.

Lemma includes_suffix (a s p : jstring) :
  includes (a ++ s) p = false -> includes s p = false.
Proof.
  induction a as [|c a IH]; [done|]. cbn [app]. rewrite includes_cons.
  intros H. apply orb_false_iff in H as [_ H]. auto.
Qed.

Lemma includes_prefix (s t p : jstring) :
  includes (s ++ t) p = false -> includes s p = false.
Proof.
  assert (forall u, startsWith (u ++ t) p = false -> startsWith u p = false) as Hs.
  { intros u. unfold startsWith. destruct (strip_prefix p u) as [r|] eqn:Hu; [|done].
    by rewrite (strip_prefix_app_r _ _ _ t Hu). }
  induction s as [|c s IH]; intros H.
  - cbn [includes]. rewrite (Hs [] ); [done|].
    cbn [app]. destruct t; cbn [includes] in H; by apply orb_false_iff in H as [H _].
  - cbn [app] in H. rewrite includes_cons in *.
    apply orb_false_iff in H as [H1 H2].
    rewrite (Hs (c :: s) H1), (IH H2). done.
Qed.

Lemma trim_start_suffix (s : jstring) : exists ws, s = ws ++ trim_start s.
Proof.
  induction s as [|c s [ws IH]]; [by exists []|]. cbn [trim_start].
  destruct (is_space c).
  - exists (c :: ws). cbn. by f_equal.
  - by exists [].
Qed.

Lemma trim_end_prefix (s : jstring) : exists ws, s = trim_end s ++ ws.
Proof.
  unfold trim_end. destruct (trim_start_suffix (rev s)) as [ws H].
  exists (rev ws). apply (f_equal (@rev N)) in H.
  by rewrite rev_involutive, rev_app_distr in H.
Qed.

Lemma includes_trim (s p : jstring) :
  includes s p = false -> includes (trim s) p = false.
Proof.
  intros H. unfold trim.
  destruct (trim_start_suffix s) as [ws1 H1].
  destruct (trim_end_prefix (trim_start s)) as [ws2 H2].
  rewrite H1 in H. apply includes_suffix in H. rewrite H2 in H.
  by apply includes_prefix in H.
Qed.

Lemma trim_start_nonspace (c : N) (r : jstring) :
  is_space c = false -> trim_start (c :: r) = c :: r.
Proof. intros H. cbn. by rewrite H. Qed.

Lemma trim_start_cases (s : jstring) :
  trim_start s = [] \/ exists c r, trim_start s = c :: r /\ is_space c = false.
Proof.
  induction s as [|c s IH]; [by left|]. cbn [trim_start].
  destruct (is_space c) eqn:Hc; [done|]. right. by exists c, s.
Qed.

Lemma trim_start_keeps_last (l : jstring) (c : N) :
  is_space c = false -> exists x, trim_start (l ++ [c]) = x ++ [c].
Proof.
  intros Hc. induction l as [|d l [x IH]].
  - exists []. cbn. by rewrite Hc.
  - cbn [app trim_start]. destruct (is_space d).
    + by exists x.
    + by exists (d :: l).
Qed.

(** [trim] keeps a first character that is not a space. *)
Lemma trim_keeps_first (c : N) (r : jstring) :
  is_space c = false -> exists r', trim (c :: r) = c :: r'.
Proof.
  intros Hc. unfold trim. rewrite trim_start_nonspace by done.
  unfold trim_end. cbn [rev].
  destruct (trim_start_keeps_last (rev r) c Hc) as [x ->].
  exists (rev x). by rewrite rev_app_distr.
Qed.

Lemma trim_end_idem (s : jstring) : trim_end (trim_end s) = trim_end s.
Proof. unfold trim_end. by rewrite rev_involutive, trim_start_idem. Qed.

Lemma trim_idem (s : jstring) : trim (trim s) = trim s.
Proof.
  unfold trim at 2 3.
  destruct (trim_start_cases s) as [->|(c & r & -> & Hc)]; [done|].
  destruct (trim_keeps_first c r Hc) as [r' Hr]. unfold trim in Hr.
  rewrite trim_start_nonspace in Hr by done. rewrite Hr.
  unfold trim. rewrite trim_start_nonspace by done.
  rewrite <- Hr. apply trim_end_idem.
Qed.

(** X9. When the regular expression matches, the reply has an opening
    fence, the tag [json] or none, white space, the capture group, and a
    closing fence, in this order; the capture group has no triple backtick
    even with the first two characters of the closing fence, and the
    candidate payload, the group trimmed, has no triple backtick and no
    white space around it. *)
Theorem capture_group_is_fence_free (text g : jstring) :
  codeBlockMatch text = Some g ->
  (exists pre (tagged : bool) ws post,
     text = pre ++ FENCE ++ (if tagged then js "json" else []) ++ ws ++ g
            ++ FENCE ++ post
     /\ forallb is_space ws = true)
  /\ includes (g ++ [BACKTICK; BACKTICK]) FENCE = false
  /\ cleanedContent text = trim g
  /\ includes (cleanedContent text) FENCE = false
  /\ trim (cleanedContent text) = cleanedContent text.
Proof.
  intros H. pose proof (codeBlockMatch_sound text g H)
    as (pre & tagged & ws & post & Heq & Hws & Hg).
  split; [by exists pre, tagged, ws, post|]. split; [done|].
  unfold cleanedContent. rewrite H. split; [done|]. split.
  - apply includes_trim. by apply includes_prefix in Hg.
  - apply trim_idem.
Qed.

(** *** A fence that is not closed *)

Lemma includes_fence_app (a post : jstring) : includes (a ++ FENCE ++ post) FENCE = true.
Proof.
  induction a as [|c a IH].
  - change ([] ++ FENCE ++ post) with (BACKTICK :: BACKTICK :: BACKTICK :: post).
    by rewrite includes_cons, starts_fence_3.
  - cbn [app]. rewrite includes_cons, IH. apply orb_true_r.
Qed.

Lemma two_fences_after_first (rest pre mid post : jstring) :
  FENCE ++ rest = pre ++ FENCE ++ mid ++ FENCE ++ post ->
  includes rest FENCE = true.
Proof.
  intros H.
  assert (rest = drop 3 (pre ++ FENCE ++ mid) ++ FENCE ++ post) as ->.
  { apply (f_equal (drop 3)) in H.
    change (drop 3 (FENCE ++ rest)) with rest in H.
    rewrite H. rewrite (app_assoc pre), (app_assoc (pre ++ FENCE)).
    rewrite <- (app_assoc pre). rewrite drop_app_le; [done|].
    rewrite !length_app. cbn. lia. }
  apply includes_fence_app.
Qed.

Lemma codeBlockMatch_unclosed (rest : jstring) :
  includes rest FENCE = false -> codeBlockMatch (FENCE ++ rest) = None.
Proof.
  intros H. destruct (codeBlockMatch (FENCE ++ rest)) as [g|] eqn:Hm; [|done].
  apply codeBlockMatch_sound in Hm as (pre & tagged & ws & post & Heq & _ & _).
  rewrite (app_assoc _ ws), (app_assoc _ g) in Heq.
  apply two_fences_after_first in Heq. congruence.
Qed.

(** *** Texts that are not JSON *)

Lemma parse_number_bad_start (c : N) (r : jstring) :
  is_digit c = false -> (c =? 45) = false -> parse_number (c :: r) = None.
Proof.
  intros Hd Hm. unfold parse_number. rewrite Hm. cbn [parse_int].
  rewrite Hd. destruct (c =? 48) eqn:H0; [|done].
  apply N.eqb_eq in H0. by subst c.
Qed.

Lemma JSON_parse_bad_start (c : N) (r : jstring) :
  starts_no_json c = true -> JSON_parse (c :: r) = None.
Proof.
  unfold starts_no_json, value_start. intros H. apply negb_true_iff in H.
  apply orb_false_iff in H as [H Hminus]. apply orb_false_iff in H as [H Hdigit].
  apply orb_false_iff in H as [Hws H].
  repeat (apply orb_false_iff in H as [H ?]).
  unfold JSON_parse, parse_fuel. cbn [length Nat.add Nat.mul].
  rewrite parse_value_unfold. cbn [skip_ws]. rewrite Hws.
  repeat match goal with Hc : (c =? _) = false |- _ => rewrite Hc; clear Hc end.
  rewrite parse_number_bad_start; [done|done|].
  by destruct (c =? 45).
Qed.

(** X10. A reply that starts with a fence that is never closed, as a
    reply cut short is, has no match: the candidate payload is the whole
    reply, fence included, and extraction fails with the error of a
    malformed payload. *)
Theorem unclosed_fence_is_not_stripped (E : environment) (rest : jstring) (w : world) :
  includes rest FENCE = false ->
  cleanedContent (FENCE ++ rest) = FENCE ++ rest
  /\ extractPayload E (Some (JStr (FENCE ++ rest))) w
     = (Throw (malformed_payload E (FENCE ++ rest)),
        logged [LogText PARSE_FAILURE_LABEL; LogText (FENCE ++ rest)] w).
Proof.
  intros H.
  assert (cleanedContent (FENCE ++ rest) = FENCE ++ rest) as Hc.
  { unfold cleanedContent. by rewrite codeBlockMatch_unclosed. }
  split; [done|].
  rewrite <- Hc at 2 3. apply extractPayload_unparseable.
  rewrite Hc. by apply JSON_parse_bad_start.
Qed.


(** *** JSON white space around a text *)

Lemma skip_ws_app (ws s : jstring) :
  forallb is_json_ws ws = true -> skip_ws (ws ++ s) = skip_ws s.
Proof.
  induction ws as [|c ws IH]; [done|]. cbn. intros H.
  apply andb_true_iff in H as [-> H]. auto.
Qed.

Lemma skip_ws_all (ws : jstring) : forallb is_json_ws ws = true -> skip_ws ws = [].
Proof.
  intros H. rewrite <- (app_nil_r ws). by rewrite skip_ws_app.
Qed.

Lemma parse_value_skip (fuel : nat) (ws s : jstring) :
  forallb is_json_ws ws = true -> parse_value fuel (ws ++ s) = parse_value fuel s.
Proof.
  intros H. destruct fuel; [done|]. by rewrite !parse_value_unfold, skip_ws_app.
Qed.

Lemma JSON_parse_padded (v : json) (ws1 ws2 : jstring) :
  number_free v = true ->
  forallb is_json_ws ws1 = true -> forallb is_json_ws ws2 = true ->
  JSON_parse (ws1 ++ JSON_stringify v ++ ws2) = Some v.
Proof.
  intros Hnf H1 H2. unfold JSON_parse. rewrite parse_value_skip by done.
  rewrite (parse_value_roundtrip v Hnf).
  - cbn. by rewrite skip_ws_all.
  - pose proof (json_size_length v Hnf). unfold parse_fuel. rewrite !length_app. lia.
Qed.

Lemma json_ws_not_backtick (c : N) : is_json_ws c = true -> c <> BACKTICK.
Proof. intros H ->. done. Qed.

Lemma includes_json_ws (ws : jstring) :
  forallb is_json_ws ws = true -> includes ws FENCE = false.
Proof.
  induction ws as [|c ws IH]; [done|]. cbn [forallb]. intros H.
  apply andb_true_iff in H as [Hc H]. rewrite includes_cons, (IH H), orb_false_r.
  apply json_ws_not_backtick in Hc.
  unfold startsWith, FENCE. cbn [strip_prefix].
  destruct (N.eqb_spec BACKTICK c); [by subst|done].
Qed.

Lemma includes_padded (ws1 s ws2 : jstring) :
  forallb is_json_ws ws1 = true -> forallb is_json_ws ws2 = true ->
  includes s FENCE = false -> includes (ws1 ++ s ++ ws2) FENCE = false.
Proof.
  intros H1 H2 Hs.
  assert (includes (s ++ ws2) FENCE = false) as Hr.
  { destruct ws2 as [|c ws2]; [by rewrite app_nil_r|].
    apply includes_app_sep; [|done|by apply includes_json_ws].
    cbn in H2. apply andb_true_iff in H2 as [H2 _]. by apply json_ws_not_backtick. }
  clear Hs H2. induction ws1 as [|c ws1 IH]; [done|].
  cbn in H1. apply andb_true_iff in H1 as [Hc H1].
  cbn [app]. rewrite includes_cons, (IH H1), orb_false_r.
  apply json_ws_not_backtick in Hc.
  unfold startsWith, FENCE. cbn [strip_prefix].
  destruct (N.eqb_spec BACKTICK c); [by subst|done].
Qed.

(** X12. A reply without fence that is the text of a JSON value with
    spaces, tabs, line feeds or carriage returns around it is extracted to
    this value: for these four characters the missing [trim] of the branch
    without fence makes no difference. *)
Theorem unfenced_reply_with_json_white_space (E : environment) (v : json)
    (ws1 ws2 : jstring) (w : world) :
  number_free v = true ->
  includes (JSON_stringify v) FENCE = false ->
  forallb is_json_ws ws1 = true -> forallb is_json_ws ws2 = true ->
  cleanedContent (ws1 ++ JSON_stringify v ++ ws2) = ws1 ++ JSON_stringify v ++ ws2
  /\ extractPayload E (Some (JStr (ws1 ++ JSON_stringify v ++ ws2))) w = (Ok v, w).
Proof.
  intros Hnf Hf H1 H2.
  assert (cleanedContent (ws1 ++ JSON_stringify v ++ ws2)
          = ws1 ++ JSON_stringify v ++ ws2) as Hc.
  { apply cleanedContent_unfenced. by apply includes_padded. }
  split; [done|]. apply extractPayload_parseable.
  rewrite Hc. by apply JSON_parse_padded.
Qed.

(** ** The artifact writer on a well-typed payload *)



Lemma summary_path_not_tasks (filename : jstring) : summary_path filename <> TASKS_PATH.
Proof.
  intros H. apply (f_equal (take 14)) in H. vm_compute in H. discriminate H.
Qed.



Lemma vault_create_taken (p : jstring) (d : value) (w : world) :
  is_Some (vault w !! p) ->
  vault_create p d w = (Throw (HostError (js "File already exists.")), w).
Proof. intros [x H]. unfold vault_create. by rewrite H. Qed.










Lemma writeSummary_occupies (filename : jstring) (d : json) (w w1 : world) :
  writeSummary filename d w = (Ok tt, w1) ->
  is_Some (vault w1 !! summary_path filename).
Proof.
  unfold writeSummary, bind, lift.
  destruct (get_prop (Some d) (js "summary")) as [s|]; [|done].
  fold (summary_path filename). unfold vault_create.
  destruct (vault w !! summary_path filename); [done|].
  destruct s as [[]|]; try done. intros H. inversion H; subst.
  cbn [set_vault vault]. rewrite lookup_insert_eq. eauto.
Qed.

Lemma writeArtifacts_occupies (filename : jstring) (d : json) (w w1 : world) :
  writeArtifacts filename d w = (Ok tt, w1) ->
  is_Some (vault w1 !! summary_path filename).
Proof.
  unfold writeArtifacts. unfold bind at 1.
  destruct (writeSummary filename d w) as [[[]|e] wa] eqn:Hws; [|done].
  apply writeSummary_occupies in Hws as [x Hx]. intros H.
  assert (extends_ledger (writeNotes d ;;; appendTasks d)) as Hext.
  { unfold writeNotes. repeat extends_step. }
  specialize (Hext wa). rewrite H in Hext. cbn [snd] in Hext.
  destruct Hext as [Hkeep _]. exists x. apply Hkeep; [|done].
  apply summary_path_not_tasks.
Qed.

(** X15. Once the writer has succeeded for a file name, whatever the
    payload was, a second run for the same file name is refused by the
    vault at the summary, the first thing written, for every payload that
    is an object: it throws [File already exists.] and changes nothing,
    the task list included. *)
Theorem second_run_for_same_name_is_refused (filename : jstring) (d : json)
    (members : list (jstring * json)) (w w1 : world) :
  writeArtifacts filename d w = (Ok tt, w1) ->
  writeArtifacts filename (JObj members) w1
  = (Throw (HostError (js "File already exists.")), w1).
Proof.
  intros H. apply writeArtifacts_occupies in H.
  unfold writeArtifacts. erewrite bind_throw; [done|].
  unfold writeSummary, bind, lift. cbn [get_prop].
  by apply vault_create_taken.
Qed.

(** ** Runs one after the other *)


(** ** The pipeline from end to end *)



(** ** After [onload] *)

Lemma onload_run (data : option saved_data) (w : world) :
  onload data w = (Ok (loadSettings data), set_vault (with_output_folders (vault w)) w).
Proof. unfold onload. erewrite bind_ok by apply ensureDirectoriesExist_run. done. Qed.

(** X2. [onload] never throws: it returns the plugin with the loaded
    settings and leaves the output folders behind.  From then on, an
    invocation of the pipeline that stops before the writer, with no key,
    on a failed call or on a reply that cannot be extracted, throws and
    leaves the vault exactly as it was. *)
Theorem failure_after_onload_leaves_vault (E : environment) (data : option saved_data)
    (this : plugin) (filename content : jstring) (w : world) :
  let w0 := snd (onload data w) in
  fst (onload data w) = Ok (loadSettings data)
  /\ (apiKey (settings this) = []
      \/ (exists e, fst (requestCompletion E this (prompt_of content) w0) = Throw e)
      \/ (exists m e,
            fst (requestCompletion E this (prompt_of content) w0) = Ok m
            /\ fst (extractPayload E m
                      (snd (requestCompletion E this (prompt_of content) w0)))
               = Throw e) ->
      (exists e, fst (parseAndOutput E this filename content w0) = Throw e)
      /\ vault (snd (parseAndOutput E this filename content w0)) = vault w0).
Proof.
  intros w0. subst w0. rewrite onload_run. cbn [fst snd]. split; [done|].
  set (w0 := set_vault (with_output_folders (vault w)) w).
  assert (set_vault (with_output_folders (vault w0)) w0 = w0) as Hidem.
  { unfold w0. cbn [set_vault vault notices console network].
    by rewrite with_output_folders_idempotent. }
  intros [Hk|Hfail].
  - rewrite parseAndOutput_no_key by done. cbn [fst snd vault].
    split; [by eexists|]. unfold w0. cbn [set_vault vault].
    apply with_output_folders_idempotent.
  - destruct (decide (apiKey (settings this) = [])) as [Hk|Hk].
    { rewrite parseAndOutput_no_key by done. cbn [fst snd vault].
      split; [by eexists|]. unfold w0. cbn [set_vault vault].
      apply with_output_folders_idempotent. }
    rewrite parseAndOutput_with_key by done. rewrite Hidem.
    pose proof (requestCompletion_vault E this (prompt_of content) w0) as Hv.
    destruct (requestCompletion E this (prompt_of content) w0) as [[m|e] w1] eqn:Hrc;
      cbn [fst snd] in *.
    + destruct Hfail as [[e He]|(m' & e & Hm & He)]; [done|].
      inversion Hm; subst m'.
      pose proof (extractPayload_keeps_vault E m w1) as Hv'.
      destruct (extractPayload E m w1) as [[d|e'] w2] eqn:Hex; cbn [fst snd] in *; [done|].
      erewrite try_catch_throw.
      2:{ erewrite bind_ok by done. by apply bind_throw. }
      cbn. split; [by eexists|]. by rewrite Hv', Hv.
    + erewrite try_catch_throw by (by apply bind_throw).
      cbn. split; [by eexists|done].
Qed.

(** ** The settings *)

(** X20. What the settings tab saves when the key is edited is what the
    next [loadSettings] gives back; with this key, when it is not empty,
    the one request of an invocation carries it in its [Authorization]
    header behind [Bearer ], and an empty key stops the invocation before
    any request. *)
Theorem saved_key_is_the_key_sent (E : environment) (this : plugin) (value : jstring)
    (filename content : jstring) (w : world) :
  let this' := fst (onApiKeyChange this value) in
  let reloaded := loadSettings (snd (onApiKeyChange this value)) in
  reloaded = this'
  /\ apiKey (settings reloaded) = value
  /\ loadSettings (saveSettings this) = this
  /\ (value <> [] ->
      exists request,
        network (snd (parseAndOutput E reloaded filename content w))
        = network w ++ [request]
        /\ url request = ENDPOINT
        /\ (js "Authorization", js "Bearer " ++ value) ∈ headers request)
  /\ (value = [] ->
      network (snd (parseAndOutput E reloaded filename content w)) = network w).
Proof.
  intros this' reloaded. subst this' reloaded. cbn [onApiKeyChange fst snd].
  split; [done|]. split; [done|]. split; [by destruct this as [[k]]|].
  split.
  - intros Hv. eexists. split; [|split].
    + rewrite parseAndOutput_with_key by done.
      set (w1 := set_vault (with_output_folders (vault w)) w).
      pose proof (requestCompletion_network E
                    (loadSettings (saveSettings {| settings := {| apiKey := value |} |}))
                    (prompt_of content) w1) as Hn.
      unfold try_catch, bind at 1.
      destruct (requestCompletion E _ (prompt_of content) w1) as [[m|e] w2]; cbn in Hn.
      * pose proof (after_completion_network E filename m w2) as Hr.
        destruct ((structuredData <~ extractPayload E m ;;
                   writeArtifacts filename structuredData) w2) as [[[]|e] w3];
          cbn in *; rewrite Hr, Hn; reflexivity.
      * cbn. rewrite Hn. reflexivity.
    + reflexivity.
    + cbn [completion_request headers]. set_solver.
  - intros ->. by rewrite parseAndOutput_no_key.
Qed.

(** ** The candidate payload of every reply *)

Lemma after_first_fence_Some (s r : jstring) :
  after_first_fence s = Some r ->
  exists a, s = a ++ FENCE ++ r /\ includes (a ++ [BACKTICK; BACKTICK]) FENCE = false.
Proof.
  revert r. induction s as [|c s IH]; intros r H.
  - cbn in H. done.
  - cbn [after_first_fence] in H.
    destruct (strip_prefix FENCE (c :: s)) as [r'|] eqn:Hs.
    + inversion H; subst r'. apply strip_prefix_Some in Hs. by exists [].
    + destruct (IH r H) as (a & -> & Ha). exists (c :: a). split; [done|].
      change ((c :: a) ++ [BACKTICK; BACKTICK]) with (c :: (a ++ [BACKTICK; BACKTICK])).
      rewrite includes_cons, Ha, orb_false_r.
      apply (starts_fence_restrict (c :: a) r); [done|].
      unfold startsWith. cbn [app]. by rewrite Hs.
Qed.

Lemma after_first_fence_None (s : jstring) :
  after_first_fence s = None -> includes s FENCE = false.
Proof.
  induction s as [|c s IH]; intros H; [done|].
  cbn [after_first_fence] in H. rewrite includes_cons. unfold startsWith.
  destruct (strip_prefix FENCE (c :: s)); [done|]. by rewrite IH.
Qed.

(** The first fence of a text comes no later than any fence of it. *)
Lemma fence_behind_first (a b p m q : jstring) :
  includes (a ++ [BACKTICK; BACKTICK]) FENCE = false ->
  a ++ FENCE ++ b = p ++ FENCE ++ m ++ FENCE ++ q ->
  includes b FENCE = true.
Proof.
  revert p. induction a as [|c a IH]; intros p Ha H.
  - by apply (two_fences_after_first b p m q).
  - change ((c :: a) ++ [BACKTICK; BACKTICK]) with (c :: (a ++ [BACKTICK; BACKTICK])) in Ha.
    rewrite includes_cons in Ha. apply orb_false_iff in Ha as [Ha1 Ha2].
    destruct p as [|d p].
    + pose proof (starts_fence_extend (c :: a) b ltac:(done) Ha1) as Hs.
      rewrite H in Hs. unfold startsWith in Hs. cbn [app] in Hs.
      by rewrite strip_prefix_app in Hs.
    + cbn [app] in H. inversion H; subst d. by apply (IH p).
Qed.

Lemma has_fenced_block_true (text : jstring) :
  has_fenced_block text = true <->
  exists pre mid post, text = pre ++ FENCE ++ mid ++ FENCE ++ post.
Proof.
  unfold has_fenced_block. split.
  - destruct (after_first_fence text) as [rest|] eqn:Hf; [|done]. intros Hr.
    apply after_first_fence_Some in Hf as (a & -> & _).
    destruct (after_first_fence rest) as [post|] eqn:Hg.
    + apply after_first_fence_Some in Hg as (m & -> & _). by exists a, m, post.
    + apply after_first_fence_None in Hg. congruence.
  - intros (p & m & q & ->).
    destruct (after_first_fence (p ++ FENCE ++ m ++ FENCE ++ q)) as [rest|] eqn:Hf.
    + apply after_first_fence_Some in Hf as (a & Heq & Ha).
      symmetry in Heq. by apply (fence_behind_first a rest p m q).
    + apply after_first_fence_None in Hf. by rewrite includes_fence_app in Hf.
Qed.

Lemma codeBlockMatch_no_block (text : jstring) :
  has_fenced_block text = false -> codeBlockMatch text = None.
Proof.
  intros H. destruct (codeBlockMatch text) as [g|] eqn:Hm; [|done].
  apply codeBlockMatch_sound in Hm as (pre & tagged & ws & post & Heq & _ & _).
  rewrite (app_assoc _ ws), (app_assoc _ g) in Heq.
  assert (has_fenced_block text = true) by (apply has_fenced_block_true; eauto).
  congruence.
Qed.

Lemma not_backtick_includes (c : N) (s : jstring) :
  c <> BACKTICK -> includes (c :: s) FENCE = includes s FENCE.
Proof.
  intros Hc. rewrite includes_cons. unfold startsWith, FENCE. cbn [strip_prefix].
  destruct (N.eqb_spec BACKTICK c); [by subst|done].
Qed.

Lemma startsWith_json_prefix (s t : jstring) :
  startsWith (s ++ t) (js "json") = false -> startsWith s (js "json") = false.
Proof.
  unfold startsWith. destruct (strip_prefix (js "json") s) as [r|] eqn:H; [|done].
  by rewrite (strip_prefix_app_r _ _ _ t H).
Qed.

(** A reply with a fenced block is made of what precedes its first fence,
    the fence, the tag [json] if it is there, the inside up to the next
    fence, and the rest. *)
Lemma first_block (text : jstring) :
  has_fenced_block text = true ->
  exists pre (tagged : bool) inner post,
    text = pre ++ FENCE ++ (if tagged then js "json" else []) ++ inner ++ FENCE ++ post
    /\ includes (pre ++ [BACKTICK; BACKTICK]) FENCE = false
    /\ includes (inner ++ [BACKTICK; BACKTICK]) FENCE = false
    /\ (tagged = false -> startsWith inner (js "json") = false).
Proof.
  unfold has_fenced_block.
  destruct (after_first_fence text) as [rest|] eqn:Hf; [|done]. intros Hr.
  apply after_first_fence_Some in Hf as (pre & -> & Hpre).
  destruct (strip_prefix (js "json") rest) as [r|] eqn:Hj.
  - apply strip_prefix_Some in Hj. subst rest.
    assert (includes r FENCE = true) as Hr'.
    { change (js "json" ++ r) with (106 :: 115 :: 111 :: 110 :: r) in Hr.
      by rewrite !not_backtick_includes in Hr. }
    destruct (after_first_fence r) as [post|] eqn:Hg.
    + apply after_first_fence_Some in Hg as (inner & -> & Hinner).
      by exists pre, true, inner, post.
    + apply after_first_fence_None in Hg. congruence.
  - destruct (after_first_fence rest) as [post|] eqn:Hg.
    + apply after_first_fence_Some in Hg as (inner & -> & Hinner).
      exists pre, false, inner, post. split; [done|]. split; [done|]. split; [done|].
      intros _. apply (startsWith_json_prefix inner (FENCE ++ post)).
      unfold startsWith. by rewrite Hj.
    + apply after_first_fence_None in Hg. congruence.
Qed.

(** C4 (amended). A reply has a fenced block when it holds a triple
    backtick and, behind it, another one.  The candidate payload of a reply
    with a fenced block is what stands between the first fence, with its
    tag [json] if it has one, and the next fence, trimmed: what precedes and
    follows the block is ignored; every such reply has these parts.  The
    candidate payload of any other reply, one with a fence that is never
    closed included, is the whole reply as it is, untrimmed. *)
Theorem candidate_payload (text : jstring) :
  (has_fenced_block text = true <->
   exists pre mid post, text = pre ++ FENCE ++ mid ++ FENCE ++ post)
  /\ (forall pre (tagged : bool) inner post,
        text = pre ++ FENCE ++ (if tagged then js "json" else []) ++ inner
               ++ FENCE ++ post ->
        includes (pre ++ [BACKTICK; BACKTICK]) FENCE = false ->
        includes (inner ++ [BACKTICK; BACKTICK]) FENCE = false ->
        (tagged = false -> startsWith inner (js "json") = false) ->
        cleanedContent text = trim inner)
  /\ (has_fenced_block text = true ->
      exists pre (tagged : bool) inner post,
        text = pre ++ FENCE ++ (if tagged then js "json" else []) ++ inner
               ++ FENCE ++ post
        /\ includes (pre ++ [BACKTICK; BACKTICK]) FENCE = false
        /\ includes (inner ++ [BACKTICK; BACKTICK]) FENCE = false
        /\ (tagged = false -> startsWith inner (js "json") = false))
  /\ (has_fenced_block text = false -> cleanedContent text = text).
Proof.
  split; [apply has_fenced_block_true|]. split; [|split].
  - intros pre tagged inner post -> Hpre Hinner Htag. by apply cleanedContent_fenced.
  - apply first_block.
  - intros H. unfold cleanedContent. by rewrite codeBlockMatch_no_block.
Qed.

(** ** The task list over a whole invocation *)

Lemma join_checkboxes (texts : list jstring) :
  join [LF] (map checkbox texts) = joined_checkbox_lines texts.
Proof.
  unfold joined_checkbox_lines. induction texts as [|t [|t' texts] IH]; [done| |].
  - cbn. by rewrite app_nil_r.
  - cbn [map]. rewrite join_cons_cons. cbn [map] in IH. rewrite IH. reflexivity.
Qed.

Lemma keeps_entries_preserves {A} (m : M A) : preserves vault m -> keeps_entries m.
Proof. intros H w p x Hp. by rewrite H. Qed.

Lemma keeps_entries_bind {A B} (m : M A) (k : A -> M B) :
  keeps_entries m -> (forall a, keeps_entries (k a)) -> keeps_entries (bind m k).
Proof.
  intros Hm Hk w p x Hp. unfold bind. specialize (Hm w p x Hp).
  destruct (m w) as [[a|e] w1]; cbn [snd] in *; [by apply Hk|done].
Qed.

Lemma keeps_entries_for_each {A} (xs : list A) (f : A -> M unit) :
  (forall x, keeps_entries (f x)) -> keeps_entries (for_each xs f).
Proof.
  intros Hf. induction xs as [|x xs IH]; [by intros w p y Hp|].
  cbn [for_each]. apply keeps_entries_bind; [apply Hf|done].
Qed.

Lemma keeps_entries_create (p : jstring) (d : value) : keeps_entries (vault_create p d).
Proof.
  intros w q x Hq. unfold vault_create. destruct (vault w !! p) eqn:Hp; [done|].
  destruct d as [[]|]; try done. cbn [snd set_vault vault].
  rewrite lookup_insert_ne; [done|]. congruence.
Qed.

Lemma keeps_entries_lift {A} (r : result A) : keeps_entries (lift r).
Proof. by intros w p x Hp. Qed.

Lemma keeps_entries_writeSummary (filename : jstring) (d : json) :
  keeps_entries (writeSummary filename d).
Proof.
  unfold writeSummary. apply keeps_entries_bind; [apply keeps_entries_lift|].
  intros. apply keeps_entries_create.
Qed.

Lemma keeps_entries_writeNotes (d : json) : keeps_entries (writeNotes d).
Proof.
  unfold writeNotes.
  repeat (apply keeps_entries_bind; [apply keeps_entries_lift|intros]).
  apply keeps_entries_for_each. intros note.
  repeat (apply keeps_entries_bind; [apply keeps_entries_lift|intros]).
  apply keeps_entries_create.
Qed.

(** The lines of the tasks, or the TypeError of a [tasks] that is no
    array or of a task that has no string. *)
Lemma taskLines_outcome (d : json) (w : world) :
  taskLines d w
  = (match get_prop (Some d) (js "tasks") with
     | Ok (Some (JArr items)) =>
         result_map (fun texts => join [LF] (map checkbox texts)) (task_texts items)
     | Ok _ => Throw TypeError
     | Throw e => Throw e
     end, w).
Proof.
  unfold taskLines, bind, lift, ret.
  destruct (get_prop (Some d) (js "tasks")) as [[[]|]|]; try done.
  cbn [array_map]. rewrite checkbox_texts. by destruct (task_texts _).
Qed.

(** Lines 157-164 when the task list is there: the step rewrites it, or
    it throws and leaves everything as it is. *)
Lemma appendTasks_on_file (d : json) (old : jstring) (w : world) :
  vault w !! TASKS_PATH = Some (File old) ->
  (exists items texts,
     get_prop (Some d) (js "tasks") = Ok (Some (JArr items))
     /\ task_texts items = Ok texts
     /\ appendTasks d w
        = (Ok tt,
           set_vault
             (<[TASKS_PATH := File (old ++ [LF] ++ joined_checkbox_lines texts)]> (vault w))
             w))
  \/ (exists e, appendTasks d w = (Throw e, w)).
Proof.
  intros Hv.
  assert (appendTasks d w
          = match taskLines d w with
            | (Ok lines, w') => vault_modify TASKS_PATH (old ++ [LF] ++ lines) w'
            | (Throw e, w') => (Throw e, w')
            end) as ->.
  { unfold appendTasks, bind at 1, getAbstractFileByPath. rewrite Hv.
    unfold bind at 1, vault_read. rewrite Hv. reflexivity. }
  rewrite taskLines_outcome.
  destruct (get_prop (Some d) (js "tasks")) as [[[| | | |items|]|]|e];
    try (right; by eexists).
  destruct (task_texts items) as [texts|e] eqn:Ht; [|right; by eexists].
  left. exists items, texts. split; [done|]. split; [done|].
  cbn [result_map]. unfold vault_modify. rewrite Hv.
  by rewrite join_checkboxes.
Qed.

(** C10 (amended). Over a whole invocation that finds the task list: when
    the invocation returns, the reply was extracted to a payload whose
    [tasks] is an array of values that have a string, and the task list is
    its old content, one line feed and the checkbox lines of these strings,
    each behind a line feed but for the first; with no task at all it
    still changes, by the line feed.  When the invocation throws, the task
    list is as it was. *)
Theorem existing_task_list_always_grows (E : environment) (this : plugin)
    (filename content old : jstring) (w : world) :
  vault w !! TASKS_PATH = Some (File old) ->
  let w1 := set_vault (with_output_folders (vault w)) w in
  let outcome := parseAndOutput E this filename content w in
  match fst outcome with
  | Ok _ =>
      exists reply payload items texts,
        fst (requestCompletion E this (prompt_of content) w1) = Ok reply
        /\ fst (extractPayload E reply
                  (snd (requestCompletion E this (prompt_of content) w1))) = Ok payload
        /\ get_prop (Some payload) (js "tasks") = Ok (Some (JArr items))
        /\ task_texts items = Ok texts
        /\ vault (snd outcome) !! TASKS_PATH
           = Some (File (old ++ [LF] ++ joined_checkbox_lines texts))
        /\ (items = [] ->
            vault (snd outcome) !! TASKS_PATH = Some (File (old ++ [LF]))
            /\ old ++ [LF] <> old)
  | Throw _ => vault (snd outcome) !! TASKS_PATH = Some (File old)
  end.
Proof.
  intros Hv w1 outcome. subst outcome.
  assert (vault w1 !! TASKS_PATH = Some (File old)) as Hv1
    by (by apply with_output_folders_keeps).
  destruct (decide (apiKey (settings this) = [])) as [Hk|Hk].
  { rewrite parseAndOutput_no_key by done. done. }
  rewrite parseAndOutput_with_key by done. fold w1.
  pose proof (requestCompletion_vault E this (prompt_of content) w1) as Hrv.
  destruct (requestCompletion E this (prompt_of content) w1) as [[reply|e] w2] eqn:Hrc;
    cbn [fst snd] in *.
  2:{ erewrite try_catch_throw by (by apply bind_throw). cbn. by rewrite Hrv. }
  pose proof (extractPayload_keeps_vault E reply w2) as Hev.
  destruct (extractPayload E reply w2) as [[payload|e] w3] eqn:Hex; cbn [fst snd] in *.
  2:{ erewrite try_catch_throw.
      2:{ erewrite bind_ok by done. by apply bind_throw. }
      cbn. by rewrite Hev, Hrv. }
  assert (vault w3 !! TASKS_PATH = Some (File old)) as Hv3 by (by rewrite Hev, Hrv).
  pose proof (keeps_entries_writeSummary filename payload w3 _ _ Hv3) as Hv4.
  destruct (writeSummary filename payload w3) as [[[]|e] w4] eqn:Hws; cbn [snd] in Hv4.
  2:{ erewrite try_catch_throw.
      2:{ erewrite bind_ok by done. erewrite bind_ok by done.
          unfold writeArtifacts. by apply bind_throw. }
      done. }
  pose proof (keeps_entries_writeNotes payload w4 _ _ Hv4) as Hv5.
  destruct (writeNotes payload w4) as [[[]|e] w5] eqn:Hwn; cbn [snd] in Hv5.
  2:{ erewrite try_catch_throw.
      2:{ erewrite bind_ok by done. erewrite bind_ok by done.
          unfold writeArtifacts. erewrite bind_ok by done. by apply bind_throw. }
      done. }
  destruct (appendTasks_on_file payload old w5 Hv5)
    as [(items & texts & Hitems & Htexts & Hat)|[e Hat]].
  - erewrite try_catch_returns.
    2:{ erewrite bind_ok by done. erewrite bind_ok by done.
        unfold writeArtifacts. erewrite bind_ok by done. erewrite bind_ok by done.
        exact Hat. }
    cbn [fst snd set_vault vault]. exists reply, payload, items, texts.
    split; [done|]. split; [by rewrite Hex|]. split; [done|]. split; [done|].
    rewrite lookup_insert_eq. split; [done|].
    intros ->. inversion Htexts; subst texts. split; [done|].
    intros H. apply (f_equal length) in H. rewrite length_app in H. cbn in H. lia.
  - erewrite try_catch_throw.
    2:{ erewrite bind_ok by done. erewrite bind_ok by done.
        unfold writeArtifacts. erewrite bind_ok by done. erewrite bind_ok by done.
        exact Hat. }
    done.
Qed.

(** ** The further properties on concrete inputs *)

(** X1, witness: the vault that holds the transcript only. *)
Lemma ensureDirectoriesExist_idempotent_witness :
  ensureDirectoriesExist (snd (ensureDirectoriesExist world_with_transcript))
  = (Ok tt, snd (ensureDirectoriesExist world_with_transcript))
  /\ vault (snd (ensureDirectoriesExist world_with_transcript)) !! path transcript_file
     = Some (File scenario_transcript).
Proof.
  destruct (ensureDirectoriesExist_idempotent world_with_transcript)
    as (_ & H2 & H3 & _).
  split; [exact H2|]. apply H3. reflexivity.
Defined.

(** X2, witness: the service cannot be reached after [onload]. *)
Lemma failure_after_onload_leaves_vault_witness :
  vault (snd (parseAndOutput offline sample_plugin (js "meeting") scenario_transcript
                (snd (onload None empty_world))))
  = vault (snd (onload None empty_world)).
Proof.
  destruct (failure_after_onload_leaves_vault offline None sample_plugin (js "meeting")
              scenario_transcript empty_world) as [_ H].
  apply H. right. left. eexists. reflexivity.
Defined.

(** X3, witness: a file of the folder [transcripts-old] is processed. *)
Lemma watchFolder_matches_by_prefix_witness :
  watchFolder offline sample_plugin WATCHED_FOLDER sibling_file empty_world
  = (content <~ vault_read (path sibling_file) ;;
     parseAndOutput offline sample_plugin (basename sibling_file) content) empty_world.
Proof.
  apply (proj1 (watchFolder_matches_by_prefix offline sample_plugin WATCHED_FOLDER
                  sibling_file empty_world) (js "-old/a.md")).
  reflexivity.
Defined.

(** X4, witness: no file is open. *)
Lemma command_never_throws_witness :
  parseTranscriptCommand offline sample_plugin None empty_world
  = Notice OPEN_FILE_NOTICE empty_world.
Proof.
  destruct (command_never_throws offline sample_plugin None empty_world) as (_ & _ & H).
  apply H. intros file Hfile. discriminate Hfile.
Defined.

(** X5, witness: the service cannot be reached; the request went out. *)
Lemma one_request_per_invocation_witness :
  network (snd (parseAndOutput offline sample_plugin (js "meeting") scenario_transcript
                  empty_world))
  = network empty_world
    ++ [completion_request (apiKey (settings sample_plugin)) (prompt_of scenario_transcript)].
Proof.
  apply (one_request_per_invocation offline sample_plugin (js "meeting")
           scenario_transcript empty_world).
  discriminate.
Defined.


(** X8, witness: the answer of the scenario. *)
Lemma completion_content_is_decoded_witness :
  fst (requestCompletion (replying scenario_reply) sample_plugin
         (prompt_of scenario_transcript) empty_world)
  = Ok (Some (JStr scenario_reply)).
Proof.
  destruct (completion_content_is_decoded (replying scenario_reply) sample_plugin
              (prompt_of scenario_transcript) (chat_completion scenario_reply)
              [ (js "choices",
                 JArr [ JObj [ (js "message",
                                JObj [ (js "role", JStr (js "assistant"));
                                       (js "content", JStr scenario_reply) ]) ] ]) ]
              [ (js "message",
                 JObj [ (js "role", JStr (js "assistant"));
                        (js "content", JStr scenario_reply) ]) ]
              [ (js "role", JStr (js "assistant")); (js "content", JStr scenario_reply) ]
              [] empty_world eq_refl eq_refl
              ltac:(vm_compute; reflexivity) eq_refl eq_refl) as [H _].
  exact H.
Defined.

(** X9, witness: the reply of the scenario in a block tagged [json]. *)
Lemma capture_group_is_fence_free_witness :
  includes (cleanedContent (fenced true scenario_reply)) FENCE = false
  /\ trim (cleanedContent (fenced true scenario_reply))
     = cleanedContent (fenced true scenario_reply).
Proof.
  destruct (capture_group_is_fence_free (fenced true scenario_reply)
              (scenario_reply ++ [LF]) ltac:(vm_compute; reflexivity))
    as (_ & _ & _ & H1 & H2).
  split; [exact H1 | exact H2].
Defined.

(** X10, witness: the reply of the scenario without its closing fence. *)
Lemma unclosed_fence_is_not_stripped_witness :
  cleanedContent truncated_reply = truncated_reply
  /\ fst (extractPayload offline (Some (JStr truncated_reply)) empty_world)
     = Throw (malformed_payload offline truncated_reply).
Proof.
  destruct (unclosed_fence_is_not_stripped offline (js "json" ++ [LF] ++ scenario_reply)
              empty_world ltac:(vm_compute; reflexivity)) as [H1 H2].
  split; [exact H1|]. unfold truncated_reply. rewrite H2. reflexivity.
Defined.


(** X12, witness: the text of the scenario between line feeds. *)
Lemma unfenced_reply_with_json_white_space_witness :
  extractPayload offline
    (Some (JStr ([LF] ++ JSON_stringify (extraction_value scenario) ++ [32; LF])))
    empty_world
  = (Ok (extraction_value scenario), empty_world).
Proof.
  apply (unfenced_reply_with_json_white_space offline (extraction_value scenario)
           [LF] [32; LF] empty_world);
    vm_compute; reflexivity.
Defined.



(** X15, witness: the scenario written twice under the same name. *)
Lemma second_run_for_same_name_is_refused_witness :
  writeArtifacts (js "meeting") (extraction_value scenario)
    (snd (writeArtifacts (js "meeting") (extraction_value scenario) empty_world))
  = (Throw (HostError (js "File already exists.")),
     snd (writeArtifacts (js "meeting") (extraction_value scenario) empty_world)).
Proof.
  apply (second_run_for_same_name_is_refused (js "meeting") (extraction_value scenario)
           _ empty_world).
  vm_compute. reflexivity.
Defined.



(** X19, witness: the service cannot be reached. *)
Lemma failures_are_logged_and_rethrown_witness :
  match fst (parseAndOutput offline sample_plugin (js "meeting") scenario_transcript
               empty_world) with
  | Ok _ =>
      console (snd (parseAndOutput offline sample_plugin (js "meeting")
                      scenario_transcript empty_world)) = console empty_world
  | Throw e =>
      exists earlier,
        console (snd (parseAndOutput offline sample_plugin (js "meeting")
                        scenario_transcript empty_world))
        = console empty_world ++ earlier ++ [[LogText API_ERROR_LABEL; LogError e]]
        /\ (earlier = [] \/
            exists candidate,
              earlier = [[LogText PARSE_FAILURE_LABEL; LogText candidate]])
  end.
Proof.
  apply (failures_are_logged_and_rethrown offline sample_plugin (js "meeting")
           scenario_transcript empty_world).
  discriminate.
Defined.

(** X20, witness: the key [sk-test] typed into the settings tab. *)
Lemma saved_key_is_the_key_sent_witness :
  exists request,
    network (snd (parseAndOutput offline
                    (loadSettings (snd (onApiKeyChange (loadSettings None) (js "sk-test"))))
                    (js "meeting") scenario_transcript empty_world))
    = network empty_world ++ [request]
    /\ url request = ENDPOINT
    /\ (js "Authorization", js "Bearer " ++ js "sk-test") ∈ headers request.
Proof.
  destruct (saved_key_is_the_key_sent offline (loadSettings None) (js "sk-test")
              (js "meeting") scenario_transcript empty_world) as (_ & _ & _ & H & _).
  apply H. discriminate.
Defined.

(** ** The candidate payload and the task list on concrete inputs *)

(** C4, witness: of a reply with a preamble, a block tagged json and a
    postamble only the inside of the block is left, and a reply whose fence
    is never closed is its own candidate. *)
Lemma candidate_payload_witness :
  cleanedContent
    (js "preamble " ++ FENCE ++ js "json" ++ ([LF] ++ scenario_reply ++ [LF])
     ++ FENCE ++ js " postamble")
  = scenario_reply
  /\ cleanedContent (js "Here it is: " ++ truncated_reply)
     = js "Here it is: " ++ truncated_reply.
Proof.
  split.
  - destruct (candidate_payload
                (js "preamble " ++ FENCE ++ js "json" ++ ([LF] ++ scenario_reply ++ [LF])
                 ++ FENCE ++ js " postamble")) as (_ & H & _).
    rewrite (H (js "preamble ") true ([LF] ++ scenario_reply ++ [LF]) (js " postamble")).
    + vm_compute. reflexivity.
    + reflexivity.
    + vm_compute. reflexivity.
    + vm_compute. reflexivity.
    + discriminate.
  - destruct (candidate_payload (js "Here it is: " ++ truncated_reply)) as (_ & _ & _ & H).
    apply H. vm_compute. reflexivity.
Defined.

(** C4, counterexample: a JSON text behind a form feed and without fence is
    handed to the parser untrimmed, and the parser rejects the form feed,
    while it accepts the trimmed text. *)
Lemma unfenced_reply_is_not_trimmed :
  cleanedContent form_feed_reply = form_feed_reply
  /\ trim form_feed_reply <> form_feed_reply
  /\ JSON_parse (cleanedContent form_feed_reply) = None
  /\ JSON_parse (trim form_feed_reply)
     = Some (extraction_value (MkExtraction (js "s") [] [])).
Proof. vm_compute. repeat split. discriminate. Qed.

(** C10, witness: the reply of the scenario and a task list of one line. *)
Lemma existing_task_list_always_grows_witness :
  vault (snd (parseAndOutput (replying scenario_reply) sample_plugin (js "meeting")
                scenario_transcript (world_with_tasks (js "- [ ] x")))) !! TASKS_PATH
  = Some (File (js "- [ ] x" ++ [LF] ++ js "- [ ] call dentist")).
Proof.
  pose proof (existing_task_list_always_grows (replying scenario_reply) sample_plugin
                (js "meeting") scenario_transcript (js "- [ ] x")
                (world_with_tasks (js "- [ ] x")) eq_refl) as H.
  cbv zeta in H.
  assert (fst (parseAndOutput (replying scenario_reply) sample_plugin (js "meeting")
                 scenario_transcript (world_with_tasks (js "- [ ] x"))) = Ok tt) as Hok
    by (vm_compute; reflexivity).
  rewrite Hok in H.
  destruct H as (reply & payload & items & texts & H1 & H2 & H3 & H4 & H5 & _).
  rewrite H5. vm_compute in H1. inversion H1; subst reply.
  vm_compute in H2. inversion H2; subst payload.
  vm_compute in H3. inversion H3; subst items.
  vm_compute in H4. inversion H4; subst texts.
  vm_compute. reflexivity.
Defined.

(** C10, counterexample: the reply has no [tasks]; the task-writing step
    is reached, throws a TypeError, and the task list that was there is
    as it was, without the line feed. *)
Lemma task_list_is_left_when_the_step_throws :
  vault (world_with_tasks (js "- [ ] x")) !! TASKS_PATH = Some (File (js "- [ ] x"))
  /\ fst (parseAndOutput (replying reply_without_tasks) sample_plugin (js "meeting")
            scenario_transcript (world_with_tasks (js "- [ ] x")))
     = Throw TypeError
  /\ vault (snd (parseAndOutput (replying reply_without_tasks) sample_plugin (js "meeting")
                   scenario_transcript (world_with_tasks (js "- [ ] x")))) !! TASKS_PATH
     = Some (File (js "- [ ] x"))
  /\ vault (snd (parseAndOutput (replying reply_without_tasks) sample_plugin (js "meeting")
                   scenario_transcript (world_with_tasks (js "- [ ] x"))))
       !! js "Parsed_Notes/notes/t.md" = Some (File (js "c"))
  /\ forall lines, js "- [ ] x" <> js "- [ ] x" ++ [LF] ++ lines.
Proof.
  split; [reflexivity|]. split; [vm_compute; reflexivity|].
  split; [vm_compute; reflexivity|]. split; [vm_compute; reflexivity|].
  intros lines H. apply (f_equal length) in H. rewrite length_app in H.
  cbn [length app] in H. lia.
Qed.

(** ** Numbers on concrete tokens *)

(** The tokens [1.0], [1e2] and [-0] print as [1], [100] and [0]; a token
    that underflows is zero and falsy. *)
Example numbers_print_as_javascript_prints_them :
  to_string (Some (JArr [JNum (js "1.0"); JNum (js "1e2"); JNum (js "-0");
                         JNum (js "0.1"); JNum (js "1e21"); JNum (js "1e-7");
                         JNum (js "123456789012345678901"); JNum (js "1e400")]))
  = Ok (js "1,100,0,0.1,1e+21,1e-7,123456789012345680000,Infinity")
  /\ JSON_stringify (JArr [JNum (js "1.0"); JNum (js "0.7"); JNum (js "1e400")])
     = js "[1,0.7,null]"
  /\ truthy (Some (JNum (js "1e-400"))) = false
  /\ truthy (Some (JNum (js "5e-324"))) = true
  /\ truthy (Some (JNum (js "-0.0"))) = false.
Proof. vm_compute. repeat split. Qed.

(** A task that is a number has the string of the Number; a task that is
    an object with a member [toString] has no string: the step throws a
    TypeError and the task list is not written. *)
Example task_without_string_stops_the_step :
  task_texts [JNum (js "1.0"); JNum (js "1e2"); JNum (js "-0")]
  = Ok [js "1"; js "100"; js "0"]
  /\ task_texts [JStr (js "a"); JObj [ (js "toString", JNull) ]] = Throw TypeError
  /\ task_texts [JObj [ (js "title", JStr (js "a")) ]; JNull; JBool true]
     = Ok [js "[object Object]"; js "null"; js "true"]
  /\ appendTasks (JObj [ (js "tasks", JArr [JObj [ (js "toString", JNull) ]]) ])
       (world_with_tasks (js "- [ ] x"))
     = (Throw TypeError, world_with_tasks (js "- [ ] x")).
Proof. vm_compute. repeat split. Qed.

(** A short candidate is quoted whole by the message of the parser, and
    so the error holds it. *)
Example short_candidate_is_quoted_whole :
  fst (extractPayload (replying (js "Sorry.")) (Some (JStr (js "Sorry."))) empty_world)
  = Throw (Error (js "Failed to parse JSON response: Unexpected token 'S', "
                  ++ [QUOTE] ++ js "Sorry." ++ [QUOTE] ++ js " is not valid JSON"))
  /\ includes
       (js "Failed to parse JSON response: Unexpected token 'S', "
        ++ [QUOTE] ++ js "Sorry." ++ [QUOTE] ++ js " is not valid JSON")
       (js "Sorry.") = true.
Proof. vm_compute. repeat split. Qed.
